(** * Move ordering statistics and staged move picker (movepick.h)

    A shallow embedding of [src/movepick.h]: the [Stats] and [FromToStats]
    tables with their update rule in 32-bit [int] arithmetic, the [Stages]
    enumeration and the [generators] dispatch table.  The bodies of
    [MovePicker::next_move] and [MovePicker::generate_next_stage] live in
    movepick.cpp; the picker below is written after the specification. *)

From Stdlib Require Import ZArith Lia List Bool Permutation.
From stdpp Require Import base option list.

Local Open Scope Z_scope.

(** ** The C++ [int] *)

(** [Value] is an enumeration over [int]; the operators of types.h compute on
    the underlying [int] and cast back.  An [int] is kept as a [Z] inside
    [min_int .. max_int]; a result outside of it is wrapped in two's
    complement, which is what the targets of the engine do where the C++
    standard leaves the overflow undefined. *)
Module Int.

Definition min_int : Z := - 2 ^ 31.
Definition max_int : Z := 2 ^ 31 - 1.

Definition in_range (z : Z) : Prop := min_int <= z <= max_int.

Definition wrap (z : Z) : Z := (z + 2 ^ 31) mod 2 ^ 32 - 2 ^ 31.

Definition add (a b : Z) : Z := wrap (a + b).
Definition sub (a b : Z) : Z := wrap (a - b).
Definition mul (a b : Z) : Z := wrap (a * b).
(** [/] on [int] truncates toward zero: [Z.quot]. *)
Definition quot (a b : Z) : Z := wrap (a ÷ b).
(** [abs(int)] *)
Definition abs (a : Z) : Z := wrap (Z.abs a).

End Int.

(** ** Keys and values *)

(** [Piece], [Square] and [Color] are enumerations used as array indices,
    [Value] and [Move] are enumerations over [int]. *)
Abbreviation Piece := nat (only parsing).
Abbreviation Square := nat (only parsing).
Abbreviation Color := nat (only parsing).
Definition Value := Z.
Definition Move := Z.

Definition MOVE_NONE : Move := 0.

(** ** [Stats<T, CM>] *)

Module Stats.

(** [T table[PIECE_NB][SQUARE_NB]] *)
Abbreviation Stats T := (list (list T)) (only parsing).

(** [static const Value Max = Value(1 << 28)] *)
Definition Max : Value := Z.shiftl 1 28.

Section Table.
Context {T : Type}.
(** The array bounds come from types.h. *)
Variables PIECE_NB SQUARE_NB : nat.

(** [operator[](Piece pc)]: the row of a piece. *)
Definition index (t : Stats T) (pc : Piece) : option (list T) := t !! pc.

(** [table[pc][to]]; [None] outside of the array. *)
Definition entry (t : Stats T) (pc : Piece) (to : Square) : option T :=
  index t pc ≫= (fun row : list T => row !! to).

(** The entry a move reads, [table[pc][to_sq(m)]] with [pc] the moving
    piece: the origin of the move plays no part. *)
Definition of_move (to_sq : Z -> Square) (t : Stats T) (pc : Piece)
    (m : Z) : option T :=
  entry t pc (to_sq m).

(** [clear()]: [memset] of the whole array with zero bytes. *)
Definition clear (zero : T) : Stats T :=
  replicate PIECE_NB (replicate SQUARE_NB zero).

(** An assignment [table[pc][to] = f (table[pc][to])]. *)
Definition assign (t : Stats T) (pc : Piece) (to : Square) (f : T -> T)
  : Stats T :=
  alter (alter f to) pc t.

(** [update(Piece pc, Square to, Move m)] *)
Definition update_move (t : Stats T) (pc : Piece) (to : Square) (m : T)
  : Stats T :=
  assign t pc to (fun _ => m).
End Table.

(** The divisor [(CM ? 936 : 324)]. *)
Definition divisor (CM : bool) : Z := if CM then 936 else 324.

(** The two statements of [update] on the stored value. *)
Definition decay (d : Z) (v : Value) (s : Value) : Value :=
  Int.sub s (Int.quot (Int.mul s (Int.abs v)) d).
Definition gain (v : Value) (s : Value) : Value :=
  Int.add s (Int.mul v 32).

(** [update(Piece pc, Square to, Value v)] *)
Definition update (CM : bool) (t : Stats Value) (pc : Piece) (to : Square)
    (v : Value) : Stats Value :=
  if Int.abs v >=? 324 then t
  else
    let t1 := assign t pc to (decay (divisor CM) v) in
    assign t1 pc to (gain v).

(** The calls [update(pc, to, v)] of a search, one after the other. *)
Definition updates (CM : bool) (t : Stats Value)
    (calls : list (Piece * Square * Value)) : Stats Value :=
  foldl (fun t call => update CM t call.1.1 call.1.2 call.2) t calls.

End Stats.

(** [typedef Stats<Move> MoveStats] and its siblings. *)
Abbreviation MoveStats := (Stats.Stats Move) (only parsing).
Abbreviation HistoryStats := (Stats.Stats Value) (only parsing).
Abbreviation CounterMoveStats := (Stats.Stats Value) (only parsing).
Abbreviation CounterMoveHistoryStats := (Stats.Stats CounterMoveStats)
  (only parsing).

(** ** [FromToStats] *)

Module FromToStats.

(** [Value table[COLOR_NB][SQUARE_NB][SQUARE_NB]] *)
Abbreviation FromToStats := (list (list (list Value))) (only parsing).

Section Table.
Variables COLOR_NB SQUARE_NB : nat.
(** [from_sq] and [to_sq] of types.h: the squares packed in a move. *)
Variables from_sq to_sq : Move -> Square.

(** [table[c][f][t]] *)
Definition entry (t : FromToStats) (c : Color) (f to : Square)
  : option Value :=
  (t !! c ≫= (fun plane : list (list Value) => plane !! f))
    ≫= (fun row : list Value => row !! to).

(** [get(Color c, Move m)] *)
Definition get (t : FromToStats) (c : Color) (m : Move) : option Value :=
  entry t c (from_sq m) (to_sq m).

(** [clear()] *)
Definition clear : FromToStats :=
  replicate COLOR_NB (replicate SQUARE_NB (replicate SQUARE_NB 0)).

Definition assign (t : FromToStats) (c : Color) (f to : Square)
    (g : Value -> Value) : FromToStats :=
  alter (alter (alter g to) f) c t.

(** [update(Color c, Move m, Value v)] *)
Definition update (t : FromToStats) (c : Color) (m : Move) (v : Value)
  : FromToStats :=
  if Int.abs v >=? 324 then t
  else
    let f := from_sq m in
    let to := to_sq m in
    let t1 := assign t c f to (Stats.decay 324 v) in
    assign t1 c f to (Stats.gain v).

(** The calls [update(c, m, v)] of a search, one after the other. *)
Definition updates (t : FromToStats)
    (calls : list (Color * Move * Value)) : FromToStats :=
  foldl (fun t call => update t call.1.1 call.1.2 call.2) t calls.
End Table.

End FromToStats.


(** ** The update rule as the specification words it *)

Module Rule.

(** [stored -= stored * |v| / divisor; stored += v * 32] on mathematical
    integers, the division truncating toward zero. *)
Definition rule (d s v : Z) : Z := s - (s * Z.abs v) ÷ d + v * 32.

(** A bound the recurrence keeps, far below [Max]. *)
Definition ceiling (d : Z) : Z := 33 * d.

End Rule.

(** ** A concrete board *)

(** Array bounds and a move encoding to run the tables on: sixteen piece
    codes, sixty-four squares, two colours, and a move that packs its
    destination in the low six bits and its origin in the next six. *)
Module Board.

Definition PIECE_NB : nat := 16.
Definition SQUARE_NB : nat := 64.
Definition COLOR_NB : nat := 2.

Definition from_sq (m : Move) : Square :=
  Z.to_nat (Z.land (Z.shiftr m 6) 63).
Definition to_sq (m : Move) : Square := Z.to_nat (Z.land m 63).
Definition make_move (from to : Square) : Move :=
  Z.shiftl (Z.of_nat from) 6 + Z.of_nat to.

(** A history table after the two updates of the scenario in section 8 of
    the specification, on the white pawn and square a1. *)
Definition history_after_scenario : Stats.Stats Value :=
  Stats.updates false (Stats.clear PIECE_NB SQUARE_NB 0)
    [ (1%nat, 0%nat, 100); (1%nat, 0%nat, -50) ].

End Board.

(** ** Invariants of the tables *)

Module Invariant.

(** Every entry of a [Stats] table satisfies [P]. *)
Definition all_entries {T : Type} (P : T -> Prop) (t : Stats.Stats T)
  : Prop :=
  Forall (Forall P) t.

(** No entry is beyond the ceiling of the table's divisor. *)
Definition under_ceiling (CM : bool) (t : Stats.Stats Value) : Prop :=
  all_entries (fun s => Z.abs s <= Rule.ceiling (Stats.divisor CM)) t.

(** The same for a [FromToStats] table. *)
Definition ft_all_entries (P : Value -> Prop)
    (t : FromToStats.FromToStats) : Prop :=
  Forall (Forall (Forall P)) t.

Definition ft_under_ceiling (t : FromToStats.FromToStats) : Prop :=
  ft_all_entries (fun s => Z.abs s <= Rule.ceiling 324) t.

End Invariant.

(** ** The level at which a stored value saturates *)

Module Saturation.

(** The value at which the decay [s * |v| / d] of an entry equals the gain
    [32 * |v|] of the observation: [32 * d]. *)
Definition level (d : Z) : Z := 32 * d.

(** No entry is beyond the saturation level of the table's divisor. *)
Definition within (CM : bool) (t : Stats.Stats Value) : Prop :=
  Invariant.all_entries (fun s => Z.abs s <= level (Stats.divisor CM)) t.

Definition ft_within (t : FromToStats.FromToStats) : Prop :=
  Invariant.ft_all_entries (fun s => Z.abs s <= level 324) t.

(** Every intermediate result of the two statements of [update] is an
    [int]: [abs(int(v))], the product, the quotient, the difference, the
    gain [int(v) * 32] and the sum. *)
Definition no_overflow (d : Z) (v s : Value) : Prop :=
  Int.in_range (Z.abs v)
  /\ Int.in_range (s * Z.abs v)
  /\ Int.in_range ((s * Z.abs v) ÷ d)
  /\ Int.in_range (s - (s * Z.abs v) ÷ d)
  /\ Int.in_range (v * 32)
  /\ Int.in_range (s - (s * Z.abs v) ÷ d + v * 32).

End Saturation.

(** ** The calls that concern one entry *)

Module Calls.

(** Whether a call [update(pc, to, v)] is for the entry of [pc] and [to]. *)
Definition for_entry (pc to : nat) (call : nat * nat * Value) : bool :=
  Nat.eqb call.1.1 pc && Nat.eqb call.1.2 to.

(** The observations a sequence of calls holds for one entry, in order. *)
Definition observations (pc to : nat) (calls : list (nat * nat * Value))
  : list Value :=
  map (fun call => call.2) (List.filter (for_entry pc to) calls).

(** What [update] does to the stored value of the entry it is called for. *)
Definition on_value (CM : bool) (s v : Value) : Value :=
  if Int.abs v >=? 324 then s
  else Stats.gain v (Stats.decay (Stats.divisor CM) v s).

End Calls.

(** ** [enum Stages] *)

Inductive Stages : Set :=
  | MAIN_SEARCH | GOOD_CAPTURES | KILLERS | QUIET | BAD_CAPTURES
  | EVASION | ALL_EVASIONS
  | QSEARCH_WITH_CHECKS | QCAPTURES_1 | CHECKS
  | QSEARCH_WITHOUT_CHECKS | QCAPTURES_2
  | PROBCUT | PROBCUT_CAPTURES
  | RECAPTURE | RECAPTURES
  | STOP.

#[global] Instance Stages_eq_dec : EqDecision Stages.
Proof. solve_decision. Defined.

(** The integer an enumerator stands for: they count up from zero in the
    order of the declaration. *)
Definition stage_value (s : Stages) : nat :=
  match s with
  | MAIN_SEARCH => 0 | GOOD_CAPTURES => 1 | KILLERS => 2 | QUIET => 3
  | BAD_CAPTURES => 4
  | EVASION => 5 | ALL_EVASIONS => 6
  | QSEARCH_WITH_CHECKS => 7 | QCAPTURES_1 => 8 | CHECKS => 9
  | QSEARCH_WITHOUT_CHECKS => 10 | QCAPTURES_2 => 11
  | PROBCUT => 12 | PROBCUT_CAPTURES => 13
  | RECAPTURE => 14 | RECAPTURES => 15
  | STOP => 16
  end%nat.

(** [STAGE_NB = STOP + 1] *)
Definition STAGE_NB : nat := (stage_value STOP + 1)%nat.

(** The conversion back, [Stages(n)]. *)
Definition stage_of_value (n : nat) : option Stages :=
  match n with
  | 0 => Some MAIN_SEARCH | 1 => Some GOOD_CAPTURES | 2 => Some KILLERS
  | 3 => Some QUIET | 4 => Some BAD_CAPTURES
  | 5 => Some EVASION | 6 => Some ALL_EVASIONS
  | 7 => Some QSEARCH_WITH_CHECKS | 8 => Some QCAPTURES_1 | 9 => Some CHECKS
  | 10 => Some QSEARCH_WITHOUT_CHECKS | 11 => Some QCAPTURES_2
  | 12 => Some PROBCUT | 13 => Some PROBCUT_CAPTURES
  | 14 => Some RECAPTURE | 15 => Some RECAPTURES
  | 16 => Some STOP
  | _ => None
  end%nat.

(** Modelled from the spec: the transition rule of section 4.2, "advancing
    from stage S always moves to the next integer value of the enumeration";
    the statement that advances the stage is in movepick.cpp. *)
Definition advance (s : Stages) : option Stages :=
  stage_of_value (stage_value s + 1).

(** Modelled from the spec: the order of the stages inside the six families
    of section 4.2, each ending in [STOP], which is absorbing; the transitions
    are taken in movepick.cpp. *)
Definition family_next (s : Stages) : Stages :=
  match s with
  | MAIN_SEARCH => GOOD_CAPTURES
  | GOOD_CAPTURES => KILLERS
  | KILLERS => QUIET
  | QUIET => BAD_CAPTURES
  | BAD_CAPTURES => STOP
  | EVASION => ALL_EVASIONS
  | ALL_EVASIONS => STOP
  | QSEARCH_WITH_CHECKS => QCAPTURES_1
  | QCAPTURES_1 => CHECKS
  | CHECKS => STOP
  | QSEARCH_WITHOUT_CHECKS => QCAPTURES_2
  | QCAPTURES_2 => STOP
  | PROBCUT => PROBCUT_CAPTURES
  | PROBCUT_CAPTURES => STOP
  | RECAPTURE => RECAPTURES
  | RECAPTURES => STOP
  | STOP => STOP
  end.

(** The first stage of a family: the one a constructor selects. *)
Definition family_head (s : Stages) : bool :=
  match s with
  | MAIN_SEARCH | EVASION | QSEARCH_WITH_CHECKS | QSEARCH_WITHOUT_CHECKS
  | PROBCUT | RECAPTURE => true
  | _ => false
  end.

(** The last stage of a family before [STOP]. *)
Definition family_last (s : Stages) : bool :=
  match s with
  | BAD_CAPTURES | ALL_EVASIONS | CHECKS | QCAPTURES_2 | PROBCUT_CAPTURES
  | RECAPTURES => true
  | _ => false
  end.

(** ** The dispatch table *)

(** [typedef void (MovePicker::*Generator)(void)]: the only member functions
    of that type are the instances of [generate_next_stage<Stages>], so a
    [Generator] is known by the stage it was instantiated for. *)
Inductive Generator : Set :=
  | generate_next_stage_at (s : Stages).

(** [constexpr Generator generators[STAGE_NB]] *)
Definition generators : list Generator :=
  [ generate_next_stage_at MAIN_SEARCH;
    generate_next_stage_at GOOD_CAPTURES;
    generate_next_stage_at KILLERS;
    generate_next_stage_at QUIET;
    generate_next_stage_at BAD_CAPTURES;

    generate_next_stage_at EVASION;
    generate_next_stage_at ALL_EVASIONS;

    generate_next_stage_at QSEARCH_WITH_CHECKS;
    generate_next_stage_at QCAPTURES_1;
    generate_next_stage_at CHECKS;

    generate_next_stage_at QSEARCH_WITHOUT_CHECKS;
    generate_next_stage_at QCAPTURES_2;

    generate_next_stage_at PROBCUT;
    generate_next_stage_at PROBCUT_CAPTURES;

    generate_next_stage_at RECAPTURE;
    generate_next_stage_at RECAPTURES;

    generate_next_stage_at STOP ].

(** ** The collaborators of the picker *)

(** Modelled from the spec: [ExtMove] of movegen.h, a candidate move with
    its attached score (section 3). *)
Record ExtMove : Set := { move : Move; value : Value }.

(** Modelled from the spec: [GenType] of movegen.h, the generation modes
    section 6 lists: captures only, quiets only, quiet checks, evasions
    and all pseudo-legal moves. *)
Inductive GenType : Set :=
  | CAPTURES | QUIETS | QUIET_CHECKS | EVASIONS | NON_EVASIONS.

(** Modelled from the spec: the position and move-generation collaborators
    of section 6 (position.h and movegen.h): whether a move is pseudo-legal,
    whether the side to move is in check, the piece on a square, whether a
    move captures, its static exchange evaluation, and the moves of a
    generation mode as an unordered sequence. *)
Record Position : Type := {
  pseudo_legal : Move -> bool;
  checkers : bool;
  piece_on : Square -> Piece;
  capture : Move -> bool;
  see : Move -> Value;
  generate : GenType -> list Move
}.

(** Modelled from the spec: the search-context collaborator of section 6
    ([Search::Stack] of search.h and the tables of the thread): the previous
    move played, the two killer slots of the ply and the countermove
    table. *)
Record Stack : Type := {
  currentMove : Move;
  ss_killers : Move * Move;
  counterMoves : Stats.Stats Move
}.

(** ** [class MovePicker] *)

(** The private members of the class.  The buffer [moves[MAX_MOVES]] with
    its cursors [cur], [endMoves] and [endBadCaptures] is kept as the two
    sequences it holds (section 9 of the specification): [moves] are the
    entries from [cur] up to [endMoves], [badCaptures] the deferred captures
    stored behind [endBadCaptures], oldest first. *)
Record MovePicker : Type := {
  pos : Position;
  ss : option Stack;
  countermove : Move;
  depth : Z;
  ttMove : Move;
  killers : list ExtMove;
  recaptureSquare : Square;
  threshold : Value;
  stage : Stages;
  badCaptures : list ExtMove;
  moves : list ExtMove
}.

(** Assignments to the members that change while moves are picked. *)
Definition set_moves (mp : MovePicker) (l : list ExtMove) : MovePicker :=
  {| pos := pos mp; ss := ss mp; countermove := countermove mp;
     depth := depth mp; ttMove := ttMove mp; killers := killers mp;
     recaptureSquare := recaptureSquare mp; threshold := threshold mp;
     stage := stage mp; badCaptures := badCaptures mp; moves := l |}.

Definition set_stage (mp : MovePicker) (s : Stages) : MovePicker :=
  {| pos := pos mp; ss := ss mp; countermove := countermove mp;
     depth := depth mp; ttMove := ttMove mp; killers := killers mp;
     recaptureSquare := recaptureSquare mp; threshold := threshold mp;
     stage := s; badCaptures := badCaptures mp; moves := moves mp |}.

Definition set_killers (mp : MovePicker) (k : list ExtMove) : MovePicker :=
  {| pos := pos mp; ss := ss mp; countermove := countermove mp;
     depth := depth mp; ttMove := ttMove mp; killers := k;
     recaptureSquare := recaptureSquare mp; threshold := threshold mp;
     stage := stage mp; badCaptures := badCaptures mp; moves := moves mp |}.

Definition set_badCaptures (mp : MovePicker) (b : list ExtMove)
  : MovePicker :=
  {| pos := pos mp; ss := ss mp; countermove := countermove mp;
     depth := depth mp; ttMove := ttMove mp; killers := killers mp;
     recaptureSquare := recaptureSquare mp; threshold := threshold mp;
     stage := stage mp; badCaptures := b; moves := moves mp |}.

(** What one pass through the loop of [next_move] ends in: a move handed to
    the caller, or another pass. *)
Inductive Outcome : Type :=
  | Return (m : Move) (mp : MovePicker)
  | Again (mp : MovePicker).

(** *** Selection inside a batch *)

(** [std::max_element]: the position and the value of the first entry with
    the largest score. *)
Fixpoint max_element (l : list ExtMove) : option (nat * ExtMove) :=
  match l with
  | [] => None
  | x :: rest =>
      match max_element rest with
      | None => Some (0%nat, x)
      | Some (j, y) =>
          if value x <? value y then Some (S j, y) else Some (0%nat, x)
      end
  end.

(** Modelled from the spec: the selection of section 4.3, "find best
    remaining, swap to front, return it" ([pick_best] of movepick.cpp).  The
    result is the best entry and the batch behind the advanced cursor. *)
Definition pick_best (l : list ExtMove) : option (ExtMove * list ExtMove) :=
  match l with
  | [] => None
  | first :: _ =>
      match max_element l with
      | None => None
      | Some (i, best) => Some (best, tail (<[i := first]> l))
      end
  end.

(** Modelled from the spec: quiet moves are "sorted descending" (section
    4.3); an insertion sort that keeps the order of equal scores. *)
Fixpoint insert_sorted (x : ExtMove) (l : list ExtMove) : list ExtMove :=
  match l with
  | [] => [x]
  | y :: rest =>
      if value y <? value x then x :: y :: rest
      else y :: insert_sorted x rest
  end.

Definition insertion_sort (l : list ExtMove) : list ExtMove :=
  foldr insert_sorted [] l.

(** The selection repeated until the batch is empty: the order in which
    [pick_best] hands out a batch. *)
Fixpoint selection_order (n : nat) (l : list ExtMove) : list ExtMove :=
  match n with
  | O => []
  | S n' =>
      match pick_best l with
      | None => []
      | Some (best, rest) => best :: selection_order n' rest
      end
  end.

Definition Move_eqb (a b : Move) : bool := Z.eqb a b.

Definition is_killer (k : list ExtMove) (m : Move) : bool :=
  existsb (fun e => Move_eqb (move e) m) k.

Definition extmove (m : Move) : ExtMove := {| move := m; value := 0 |}.

(** *** The stage machine *)

Section Picker.

(** [to_sq] of types.h. *)
Variable to_sq : Move -> Square.

(** The score [score<GenType>()] attaches to a move of a batch; it reads the
    statistics tables of the search context. *)
Variable score_of : GenType -> Position -> Move -> Value.

(** A generated batch with its scores. *)
Definition scored (g : GenType) (p : Position) : list ExtMove :=
  map (fun m => {| move := m; value := score_of g p m |}) (generate p g).

(** Modelled from the spec: the "up to three killer-move slots" of section
    3, the two killers of the ply and the countermove; a slot that repeats
    an earlier one is left out (section 4.3, a killer equal to the
    countermove is skipped). *)
Definition slots (s : option Stack) (cm : Move) : list ExtMove :=
  match s with
  | None => []
  | Some s =>
      let k0 := fst (ss_killers s) in
      let k1 := snd (ss_killers s) in
      extmove k0
        :: (if Move_eqb k1 k0 then [] else [extmove k1])
        ++ (if Move_eqb cm k0 || Move_eqb cm k1 then [] else [extmove cm])
  end.

Definition killer_slots (mp : MovePicker) : list ExtMove :=
  slots (ss mp) (countermove mp).

(** Modelled from the spec: what a stage does upon entry (section 4.2): the
    capture stages, QUIET, ALL_EVASIONS and CHECKS generate a batch in bulk
    and score it, QUIET sorts it, KILLERS lines up the killer slots,
    BAD_CAPTURES replays the deferred captures, STOP has nothing. *)
Definition enter (s : Stages) (mp : MovePicker) : MovePicker :=
  let mp := set_stage mp s in
  match s with
  | GOOD_CAPTURES | QCAPTURES_1 | QCAPTURES_2 | PROBCUT_CAPTURES
  | RECAPTURES =>
      set_moves mp (scored CAPTURES (pos mp))
  | KILLERS =>
      let k := killer_slots mp in set_moves (set_killers mp k) k
  | QUIET =>
      set_moves mp (insertion_sort (scored QUIETS (pos mp)))
  | BAD_CAPTURES =>
      set_moves mp (badCaptures mp)
  | ALL_EVASIONS =>
      set_moves mp (scored EVASIONS (pos mp))
  | CHECKS =>
      set_moves mp (map extmove (generate (pos mp) QUIET_CHECKS))
  | MAIN_SEARCH | EVASION | QSEARCH_WITH_CHECKS | QSEARCH_WITHOUT_CHECKS
  | PROBCUT | RECAPTURE | STOP =>
      set_moves mp []
  end.

(** Modelled from the spec: [generate_next_stage<s>()] of movepick.cpp, the
    routine that runs when the batch of stage [s] is used up: it moves to
    the next stage of the family and prepares its batch. *)
Definition generate_next_stage (s : Stages) (mp : MovePicker) : MovePicker :=
  enter (family_next s) mp.

(** A call through a pointer to member function, [(this->*g)()]. *)
Definition call (g : Generator) (mp : MovePicker) : MovePicker :=
  match g with
  | generate_next_stage_at s => generate_next_stage s mp
  end.

(** Modelled from the spec: the dispatch of section 4.2, the routine that
    runs is the entry of [generators] at the value of the active stage,
    [(this->*generators[stage])()]. *)
Definition dispatch (mp : MovePicker) : MovePicker :=
  match generators !! stage_value (stage mp) with
  | Some g => call g mp
  | None => mp
  end.

(** The selection [pick_best(cur++, endMoves)] followed by the test of the
    stage: a move that passes is returned, any other is dropped. *)
Definition pick_if (ok : Move -> bool) (mp : MovePicker) : Outcome :=
  match pick_best (moves mp) with
  | None => Again mp
  | Some (best, rest) =>
      if ok (move best) then Return (move best) (set_moves mp rest)
      else Again (set_moves mp rest)
  end.

(** The plain [*cur++] followed by the test of the stage. *)
Definition take_if (ok : Move -> bool) (mp : MovePicker) : Outcome :=
  match moves mp with
  | [] => Again mp
  | first :: rest =>
      if ok (move first) then Return (move first) (set_moves mp rest)
      else Again (set_moves mp rest)
  end.

Definition not_ttMove (mp : MovePicker) (m : Move) : bool :=
  negb (Move_eqb m (ttMove mp)).

(** Modelled from the spec: one pass through the loop of [next_move]
    (movepick.cpp; sections 4.2 to 4.4).  With the batch used up the
    generator of the stage runs, in STOP the sentinel is returned; otherwise
    the stage takes the next entry of its batch: a first stage of a family
    returns the hash move, GOOD_CAPTURES returns the best capture unless it
    is the hash move or loses material, in which case it is deferred,
    KILLERS returns a slot that is a pseudo-legal quiet move other than the
    hash move, QUIET returns what is neither hash move nor killer,
    BAD_CAPTURES replays, and the other stages filter by their predicate. *)
Definition step (mp : MovePicker) : Outcome :=
  match stage mp, moves mp with
  | STOP, _ => Return MOVE_NONE mp
  | _, [] => Again (dispatch mp)
  | (MAIN_SEARCH | EVASION | QSEARCH_WITH_CHECKS | QSEARCH_WITHOUT_CHECKS
     | PROBCUT | RECAPTURE), _ :: rest =>
      Return (ttMove mp) (set_moves mp rest)
  | GOOD_CAPTURES, _ =>
      match pick_best (moves mp) with
      | None => Again mp
      | Some (best, rest) =>
          if not_ttMove mp (move best) then
            if see (pos mp) (move best) >=? 0
            then Return (move best) (set_moves mp rest)
            else Again (set_badCaptures (set_moves mp rest)
                          (badCaptures mp ++ [best]))
          else Again (set_moves mp rest)
      end
  | KILLERS, _ =>
      take_if (fun m => negb (Move_eqb m MOVE_NONE) && not_ttMove mp m
                        && pseudo_legal (pos mp) m
                        && negb (capture (pos mp) m)) mp
  | QUIET, _ =>
      take_if (fun m => not_ttMove mp m && negb (is_killer (killers mp) m)) mp
  | BAD_CAPTURES, _ =>
      take_if (fun _ => true) mp
  | (ALL_EVASIONS | QCAPTURES_1 | QCAPTURES_2), _ =>
      pick_if (not_ttMove mp) mp
  | PROBCUT_CAPTURES, _ =>
      pick_if (fun m => not_ttMove mp m
                        && (see (pos mp) m >? threshold mp)) mp
  | RECAPTURES, _ =>
      pick_if (fun m => not_ttMove mp m
                        && Nat.eqb (to_sq m) (recaptureSquare mp)) mp
  | CHECKS, _ =>
      take_if (not_ttMove mp) mp
  end.

(** Modelled from the spec: the loop of [next_move], which takes passes
    until one of them returns; here at most [fuel] passes. *)
Fixpoint next_move_loop (fuel : nat) (mp : MovePicker)
  : option (Move * MovePicker) :=
  match fuel with
  | O => None
  | S fuel' =>
      match step mp with
      | Return m mp' => Some (m, mp')
      | Again mp' => next_move_loop fuel' mp'
      end
  end.

(** The passes a picker can still make without returning: every entry of
    the batch at hand and of the batches to come, and every stage to come.
    An entry of GOOD_CAPTURES counts twice, as it may be deferred and come
    back in BAD_CAPTURES. *)
Definition weight (s : Stages) : nat :=
  match s with GOOD_CAPTURES => 2 | _ => 1 end%nat.

Definition batch_bound (p : Position) (s : Stages) : nat :=
  match s with
  | GOOD_CAPTURES | QCAPTURES_1 | QCAPTURES_2 | PROBCUT_CAPTURES
  | RECAPTURES => length (generate p CAPTURES)
  | KILLERS => 3
  | QUIET => length (generate p QUIETS)
  | ALL_EVASIONS => length (generate p EVASIONS)
  | CHECKS => length (generate p QUIET_CHECKS)
  | _ => 0
  end%nat.

Fixpoint work (k : nat) (p : Position) (s : Stages) : nat :=
  match k with
  | O => 0
  | S k' =>
      match s with
      | STOP => 0
      | _ =>
          let s' := family_next s in
          1 + weight s' * batch_bound p s' + work k' p s'
      end
  end%nat.

Definition before_BAD_CAPTURES (s : Stages) : bool :=
  match s with
  | MAIN_SEARCH | GOOD_CAPTURES | KILLERS | QUIET => true
  | _ => false
  end.

Definition passes_left (mp : MovePicker) : nat :=
  (weight (stage mp) * length (moves mp)
   + (if before_BAD_CAPTURES (stage mp) then length (badCaptures mp) else 0)
   + work 6 (pos mp) (stage mp))%nat.

(** Modelled from the spec: [Move next_move()] of section 4.4, the move
    returned and the picker after the call.  The loop never runs out of
    the passes it is given here, so the last case is not taken. *)
Definition next_move (mp : MovePicker) : Move * MovePicker :=
  match next_move_loop (S (passes_left mp)) mp with
  | Some r => r
  | None => (MOVE_NONE, mp)
  end.

(** The moves of [n] calls of [next_move] in a row. *)
Fixpoint consume (n : nat) (mp : MovePicker) : list Move :=
  match n with
  | O => []
  | S n' => let r := next_move mp in fst r :: consume n' (snd r)
  end.

(** The picker after [n] calls. *)
Fixpoint after_calls (n : nat) (mp : MovePicker) : MovePicker :=
  match n with
  | O => mp
  | S n' => after_calls n' (snd (next_move mp))
  end.

(** Modelled from the spec: the constructor for normal and evasion search,
    the one that takes a position, a hash move, a depth and the search stack
    (section 6): the first stage is EVASION when the side to move is in
    check and MAIN_SEARCH otherwise, the hash move is recorded when it is
    pseudo-legal and is then the one entry to take, the countermove is looked
    up for the previous move. *)
Definition MovePicker_main (p : Position) (ttm : Move) (d : Z) (s : Stack)
  : MovePicker :=
  let prevSq := to_sq (currentMove s) in
  let tt := if negb (Move_eqb ttm MOVE_NONE) && pseudo_legal p ttm
            then ttm else MOVE_NONE in
  {| pos := p; ss := Some s;
     countermove :=
       default MOVE_NONE (Stats.entry (counterMoves s) (piece_on p prevSq)
                            prevSq);
     depth := d; ttMove := tt; killers := [];
     recaptureSquare := 0%nat; threshold := 0;
     stage := if checkers p then EVASION else MAIN_SEARCH;
     badCaptures := [];
     moves := if Move_eqb tt MOVE_NONE then [] else [extmove tt] |}.

End Picker.

(** *** What a picker still has to hand out *)

Section Pending.

Variable to_sq : Move -> Square.
Variable score_of : GenType -> Position -> Move -> Value.

(** The order in which the stage goes through its batch. *)
Definition batch_order (mp : MovePicker) : list ExtMove :=
  match stage mp with
  | GOOD_CAPTURES | ALL_EVASIONS | QCAPTURES_1 | QCAPTURES_2
  | PROBCUT_CAPTURES | RECAPTURES =>
      selection_order (length (moves mp)) (moves mp)
  | _ => moves mp
  end.

(** The test an entry of the batch has to pass to be returned. *)
Definition passes (mp : MovePicker) (m : Move) : bool :=
  match stage mp with
  | MAIN_SEARCH | EVASION | QSEARCH_WITH_CHECKS | QSEARCH_WITHOUT_CHECKS
  | PROBCUT | RECAPTURE => true
  | GOOD_CAPTURES => not_ttMove mp m && (see (pos mp) m >=? 0)
  | KILLERS =>
      negb (Move_eqb m MOVE_NONE) && not_ttMove mp m
      && pseudo_legal (pos mp) m && negb (capture (pos mp) m)
  | QUIET => not_ttMove mp m && negb (is_killer (killers mp) m)
  | BAD_CAPTURES => true
  | ALL_EVASIONS | QCAPTURES_1 | QCAPTURES_2 | CHECKS => not_ttMove mp m
  | PROBCUT_CAPTURES => not_ttMove mp m && (see (pos mp) m >? threshold mp)
  | RECAPTURES =>
      not_ttMove mp m && Nat.eqb (to_sq m) (recaptureSquare mp)
  | STOP => false
  end.

(** The move an entry stands for: a first stage of a family hands out the
    hash move for its one entry. *)
Definition handed_out (mp : MovePicker) (e : ExtMove) : Move :=
  if family_head (stage mp) then ttMove mp else move e.

(** The moves the batch at hand still yields. *)
Definition yields (mp : MovePicker) : list Move :=
  map (handed_out mp)
    (List.filter (fun e => passes mp (move e)) (batch_order mp)).

(** The captures of the batch at hand that GOOD_CAPTURES will defer. *)
Definition deferred (mp : MovePicker) : list ExtMove :=
  match stage mp with
  | GOOD_CAPTURES =>
      List.filter
        (fun e => not_ttMove mp (move e)
                  && negb (see (pos mp) (move e) >=? 0))
        (batch_order mp)
  | _ => []
  end.

(** The picker once the batch at hand is used up. *)
Definition drain (mp : MovePicker) : MovePicker :=
  set_badCaptures (set_moves mp []) (badCaptures mp ++ deferred mp).

(** The stages of the family still to come. *)
Definition rank (s : Stages) : nat :=
  match s with
  | STOP => 0
  | BAD_CAPTURES | ALL_EVASIONS | CHECKS | QCAPTURES_2 | PROBCUT_CAPTURES
  | RECAPTURES => 1
  | QUIET | EVASION | QCAPTURES_1 | QSEARCH_WITHOUT_CHECKS | PROBCUT
  | RECAPTURE => 2
  | KILLERS | QSEARCH_WITH_CHECKS => 3
  | GOOD_CAPTURES => 4
  | MAIN_SEARCH => 5
  end%nat.

(** Every move the picker hands out from here on, in order, over the [k]
    stages to come. *)
Fixpoint pending_over (k : nat) (mp : MovePicker) : list Move :=
  yields mp ++
  match k with
  | O => []
  | S k' => pending_over k' (dispatch score_of (drain mp))
  end.

Definition pending (mp : MovePicker) : list Move :=
  pending_over (rank (stage mp)) mp.

(** A picker as a constructor leaves it: in the first stage of a family,
    nothing deferred, and the hash move, if there is one, as the one entry
    to take. *)
Definition fresh (mp : MovePicker) : Prop :=
  family_head (stage mp) = true
  /\ badCaptures mp = []
  /\ moves mp = if Move_eqb (ttMove mp) MOVE_NONE then []
                else [extmove (ttMove mp)].


End Pending.

(** ** A sample node *)

(** A position with three captures, one of them losing, and four quiet
    moves, to run the picker on. *)
Module Sample.

Definition captures : list Move := [101; 102; 103].
Definition quiets : list Move := [201; 202; 203; 204].

Definition position : Position :=
  {| pseudo_legal := fun m => existsb (Z.eqb m) (captures ++ quiets);
     checkers := false;
     piece_on := fun _ => 1%nat;
     capture := fun m => existsb (Z.eqb m) captures;
     see := fun m => if m =? 102 then -100 else 0;
     generate := fun g =>
       match g with
       | CAPTURES => captures
       | QUIETS => quiets
       | QUIET_CHECKS => [204]
       | EVASIONS => []
       | NON_EVASIONS => captures ++ quiets
       end |}.

(** A position whose one capture loses material. *)
Definition losing_position : Position :=
  {| pseudo_legal := fun m => existsb (Z.eqb m) (102 :: quiets);
     checkers := false;
     piece_on := fun _ => 1%nat;
     capture := fun m => m =? 102;
     see := fun m => if m =? 102 then -100 else 0;
     generate := fun g =>
       match g with
       | CAPTURES => [102]
       | QUIETS => quiets
       | NON_EVASIONS => 102 :: quiets
       | _ => []
       end |}.


(** A node with the given capture and quiet batches, every exchange
    even. *)
Definition node (caps qs : list Move) : Position :=
  {| pseudo_legal := fun m => existsb (Z.eqb m) (caps ++ qs);
     checkers := false;
     piece_on := fun _ => 1%nat;
     capture := fun m => existsb (Z.eqb m) caps;
     see := fun _ => 0;
     generate := fun g =>
       match g with
       | CAPTURES => caps
       | QUIETS => qs
       | NON_EVASIONS => caps ++ qs
       | _ => []
       end |}.

(** The search stack: killers 202 and 102, and 203 recorded as the reply to
    the previous move. *)
Definition stack : Stack :=
  {| currentMove := Board.make_move 52 36;
     ss_killers := (202, 102);
     counterMoves :=
       Stats.update_move
         (Stats.clear Board.PIECE_NB Board.SQUARE_NB MOVE_NONE)
         1%nat 36%nat 203 |}.

(** Scores: the captures by their number, the quiet moves against it. *)
Definition score_of (g : GenType) (p : Position) (m : Move) : Value :=
  match g with
  | QUIETS => - m
  | _ => m
  end.

Definition picker (p : Position) (ttm : Move) : MovePicker :=
  MovePicker_main Board.to_sq p ttm 8 stack.

Definition next (mp : MovePicker) : Move * MovePicker :=
  next_move Board.to_sq score_of mp.

End Sample.

(** * Properties *)

(** ** Arithmetic of the update rule *)

Module IntFacts.

Lemma wrap_small z : Int.in_range z -> Int.wrap z = z.
Proof.
  unfold Int.in_range, Int.min_int, Int.max_int, Int.wrap. intros H.
  rewrite Z.mod_small by lia. lia.
Qed.

Lemma wrap_in_range z : Int.in_range (Int.wrap z).
Proof.
  unfold Int.in_range, Int.min_int, Int.max_int, Int.wrap.
  pose proof (Z.mod_pos_bound (z + 2 ^ 31) (2 ^ 32)). lia.
Qed.

(** [abs(int(v))] is the absolute value, except at [INT_MIN]. *)
Lemma abs_small v :
  Int.min_int < v <= Int.max_int -> Int.abs v = Z.abs v.
Proof.
  unfold Int.abs. intros H. apply wrap_small.
  unfold Int.in_range, Int.min_int, Int.max_int in *. lia.
Qed.

Lemma abs_min_int : Int.abs Int.min_int = Int.min_int.
Proof. reflexivity. Qed.

(** Truncating division of a non-negative and of a non-positive number. *)
Lemma quot_nonneg x d :
  0 < d -> 0 <= x -> 0 <= x ÷ d /\ d * (x ÷ d) <= x < d * (x ÷ d) + d.
Proof.
  intros Hd Hx. rewrite Z.quot_div_nonneg by lia.
  pose proof (Z.div_pos x d Hx Hd).
  pose proof (Z.mul_div_le x d Hd).
  pose proof (Z.mul_succ_div_gt x d Hd). lia.
Qed.

Lemma quot_nonpos x d :
  0 < d -> x <= 0 -> x ÷ d <= 0 /\ d * (x ÷ d) - d < x <= d * (x ÷ d).
Proof.
  intros Hd Hx.
  replace x with (- (- x)) by lia.
  rewrite Z.quot_opp_l by lia.
  destruct (quot_nonneg (- x) d Hd) as (H0 & H1 & H2); [lia|]. lia.
Qed.

End IntFacts.

Module UpdateRule.

Import IntFacts.

Import Rule.

(** The quotient of the decay lies between zero and the stored value. *)
Lemma decay_quot_between d s a :
  0 <= a < d ->
  (0 <= s -> 0 <= (s * a) ÷ d <= s) /\
  (s <= 0 -> s <= (s * a) ÷ d <= 0).
Proof.
  intros Ha. split; intros Hs.
  - destruct (quot_nonneg (s * a) d) as (H0 & H1 & H2); [lia|nia|]. nia.
  - destruct (quot_nonpos (s * a) d) as (H0 & H1 & H2); [lia|nia|]. nia.
Qed.

(** Where the product [s * |v|] fits an [int], the two statements of
    [update] compute the rule exactly. *)
Lemma gain_decay_exact d s v :
  d = 324 \/ d = 936 ->
  Z.abs v < 324 ->
  Int.in_range s ->
  Int.in_range (s * Z.abs v) ->
  Stats.gain v (Stats.decay d v s) = rule d s v.
Proof.
  intros Hd Hv Hs Hp.
  assert (Hd' : 324 <= d) by lia.
  unfold Stats.gain, Stats.decay, rule.
  rewrite abs_small by (unfold Int.min_int, Int.max_int; lia).
  unfold Int.mul at 1. rewrite (wrap_small (s * Z.abs v)) by exact Hp.
  set (a := Z.abs v) in *. set (q := (s * a) ÷ d).
  assert (Ha : 0 <= a < d) by (unfold a; lia).
  destruct (decay_quot_between d s a Ha) as [Hq1 Hq2]. fold q in Hq1, Hq2.
  unfold Int.in_range, Int.min_int, Int.max_int in *.
  unfold Int.quot. fold q.
  rewrite (wrap_small q)
    by (unfold Int.in_range, Int.min_int, Int.max_int; lia).
  unfold Int.sub.
  rewrite (wrap_small (s - q))
    by (unfold Int.in_range, Int.min_int, Int.max_int; lia).
  unfold Int.mul.
  rewrite (wrap_small (v * 32))
    by (unfold Int.in_range, Int.min_int, Int.max_int; lia).
  unfold Int.add. apply wrap_small.
  unfold Int.in_range, Int.min_int, Int.max_int.
  (* the sum stays inside: a large [s] forces [a <= 1] *)
  destruct (Z_le_gt_dec (Z.abs s) (2 ^ 30)) as [Hsmall | Hbig]; [lia|].
  assert (Ha1 : a = 0 \/ a = 1) by nia.
  destruct Ha1 as [Ha0 | Ha1].
  - assert (v = 0) by lia. subst v. lia.
  - assert (Hv1 : -1 <= v <= 1) by lia.
    destruct (Z_le_gt_dec 0 s) as [Hpos | Hneg].
    + destruct (quot_nonneg (s * a) d) as (H0 & H1 & H2); [lia|nia|].
      fold q in H0, H1, H2. nia.
    + destruct (quot_nonpos (s * a) d) as (H0 & H1 & H2); [lia|nia|].
      fold q in H0, H1, H2. nia.
Qed.

(** The recurrence keeps a stored value under [33 * d]. *)
Lemma rule_bounded d s v :
  324 <= d ->
  Z.abs v < 324 ->
  Z.abs s <= ceiling d ->
  Z.abs (rule d s v) <= ceiling d.
Proof.
  unfold ceiling, rule. intros Hd Hv Hs.
  set (a := Z.abs v) in *. set (q := (s * a) ÷ d).
  assert (Ha : 0 <= a < d) by (unfold a; lia).
  destruct (Z.eq_dec a 0) as [Ha0 | Han].
  { assert (v = 0) by lia. subst v. unfold q. rewrite Ha0.
    rewrite Z.mul_0_r, Z.quot_0_l by lia. lia. }
  assert (Hva : v = a \/ v = - a) by lia.
  destruct (Z_le_gt_dec 0 s) as [Hpos | Hneg].
  - destruct (quot_nonneg (s * a) d) as (H0 & H1 & H2); [lia|nia|].
    fold q in H0, H1, H2.
    assert (q <= s) by nia.
    assert (d * (s - q + 32 * a) <= d * (33 * d)) by nia.
    assert (s - q + 32 * a <= 33 * d) by nia.
    lia.
  - destruct (quot_nonpos (s * a) d) as (H0 & H1 & H2); [lia|nia|].
    fold q in H0, H1, H2.
    assert (s <= q) by nia.
    assert (d * (- (33 * d)) <= d * (s - q - 32 * a)) by nia.
    assert (- (33 * d) <= s - q - 32 * a) by nia.
    lia.
Qed.

(** A stored value under the ceiling keeps the product inside [int]. *)
Lemma ceiling_in_range d s v :
  d = 324 \/ d = 936 ->
  Z.abs v < 324 ->
  Z.abs s <= ceiling d ->
  Int.in_range s /\ Int.in_range (s * Z.abs v).
Proof.
  unfold ceiling, Int.in_range, Int.min_int, Int.max_int.
  intros Hd Hv Hs. split; [lia|].
  assert (Z.abs (s * Z.abs v) <= 33 * 936 * 324).
  { rewrite Z.abs_mul, (Z.abs_eq (Z.abs v)) by lia. nia. }
  lia.
Qed.

(** One update of a stored value under the ceiling. *)
Lemma gain_decay_bounded d s v :
  d = 324 \/ d = 936 ->
  Z.abs v < 324 ->
  Z.abs s <= ceiling d ->
  Z.abs (Stats.gain v (Stats.decay d v s)) <= ceiling d.
Proof.
  intros Hd Hv Hs.
  destruct (ceiling_in_range d s v Hd Hv Hs) as [H1 H2].
  rewrite gain_decay_exact by assumption.
  apply rule_bounded; [lia | assumption | assumption].
Qed.

Lemma ceiling_below_Max d :
  d = 324 \/ d = 936 -> ceiling d < Stats.Max.
Proof. unfold ceiling, Stats.Max. intros [-> | ->]; reflexivity. Qed.

End UpdateRule.

(** ** Reading and writing table entries *)

Import Invariant.

Section StatsEntries.
Context {T : Type}.
Implicit Types (t : Stats.Stats T) (pc : Piece) (to : Square).

Lemma entry_assign_eq t pc to f :
  Stats.entry (Stats.assign t pc to f) pc to = f <$> Stats.entry t pc to.
Proof.
  unfold Stats.entry, Stats.index, Stats.assign.
  rewrite list_lookup_alter_eq.
  destruct (t !! pc) as [row|]; simpl; [|reflexivity].
  apply list_lookup_alter_eq.
Qed.

Lemma entry_assign_ne t pc to pc' to' f :
  pc <> pc' \/ to <> to' ->
  Stats.entry (Stats.assign t pc to f) pc' to' = Stats.entry t pc' to'.
Proof.
  unfold Stats.entry, Stats.index, Stats.assign. intros Hne.
  destruct (decide (pc = pc')) as [<- | Hpc].
  - rewrite list_lookup_alter_eq.
    destruct (t !! pc) as [row|]; simpl; [|reflexivity].
    apply list_lookup_alter_ne. destruct Hne; congruence.
  - rewrite list_lookup_alter_ne by assumption. reflexivity.
Qed.

Lemma assign_assign t pc to f g :
  Stats.assign (Stats.assign t pc to f) pc to g
  = Stats.assign t pc to (g ∘ f).
Proof.
  unfold Stats.assign. rewrite list_alter_alter_eq.
  apply list_alter_ext; [|reflexivity].
  intros row _. simpl. apply list_alter_alter_eq.
Qed.

Lemma entry_clear PIECE_NB SQUARE_NB (zero : T) pc to :
  (pc < PIECE_NB)%nat -> (to < SQUARE_NB)%nat ->
  Stats.entry (Stats.clear PIECE_NB SQUARE_NB zero) pc to = Some zero.
Proof.
  intros Hpc Hto. unfold Stats.entry, Stats.index, Stats.clear.
  rewrite lookup_replicate_2 by assumption. simpl.
  apply lookup_replicate_2. assumption.
Qed.

Lemma entry_update_move t pc to m old :
  Stats.entry t pc to = Some old ->
  Stats.entry (Stats.update_move t pc to m) pc to = Some m.
Proof.
  intros H. unfold Stats.update_move. rewrite entry_assign_eq, H.
  reflexivity.
Qed.

Lemma all_entries_assign (P : T -> Prop) t pc to f :
  (forall x, P x -> P (f x)) ->
  all_entries P t -> all_entries P (Stats.assign t pc to f).
Proof.
  intros Hf Ht. unfold all_entries, Stats.assign.
  apply Forall_alter; [assumption|].
  intros row _ Hrow. apply Forall_alter; [assumption|]. auto.
Qed.

Lemma all_entries_entry (P : T -> Prop) t pc to x :
  all_entries P t -> Stats.entry t pc to = Some x -> P x.
Proof.
  unfold all_entries, Stats.entry, Stats.index. intros Ht H.
  destruct (t !! pc) as [row|] eqn:Hrow; simpl in H; [|discriminate].
  eapply Forall_lookup_1; [|exact H].
  eapply Forall_lookup_1; [exact Ht | exact Hrow].
Qed.

Lemma all_entries_clear (P : T -> Prop) PIECE_NB SQUARE_NB zero :
  P zero -> all_entries P (Stats.clear PIECE_NB SQUARE_NB zero).
Proof.
  intros H. unfold all_entries, Stats.clear.
  apply Forall_replicate, Forall_replicate, H.
Qed.
End StatsEntries.

Section StatsUpdate.
Implicit Types (t : Stats.Stats Value) (pc : Piece) (to : Square).

(** The guard of [update] and what it lets through. *)
Lemma update_unfold CM t pc to v :
  Stats.update CM t pc to v =
  if Int.abs v >=? 324 then t
  else Stats.assign t pc to
         (compose (Stats.gain v) (Stats.decay (Stats.divisor CM) v)).
Proof.
  unfold Stats.update. destruct (Int.abs v >=? 324); [reflexivity|].
  apply assign_assign.
Qed.

Lemma guard_open v : Z.abs v < 324 -> (Int.abs v >=? 324) = false.
Proof.
  intros H. rewrite IntFacts.abs_small
    by (unfold Int.min_int, Int.max_int; lia).
  rewrite Z.geb_leb. apply Z.leb_gt. assumption.
Qed.

Lemma guard_closed v :
  Int.min_int < v <= Int.max_int -> 324 <= Z.abs v ->
  (Int.abs v >=? 324) = true.
Proof.
  intros Hr H. rewrite IntFacts.abs_small by assumption.
  rewrite Z.geb_leb. apply Z.leb_le. assumption.
Qed.

Lemma divisor_cases CM : Stats.divisor CM = 324 \/ Stats.divisor CM = 936.
Proof. destruct CM; simpl; auto. Qed.

Lemma entry_update_eq CM t pc to v s :
  Z.abs v < 324 ->
  Stats.entry t pc to = Some s ->
  Stats.entry (Stats.update CM t pc to v) pc to
  = Some (Stats.gain v (Stats.decay (Stats.divisor CM) v s)).
Proof.
  intros Hv Hs. rewrite update_unfold, guard_open by assumption.
  rewrite entry_assign_eq, Hs. reflexivity.
Qed.

Lemma entry_update_ne CM t pc to pc' to' v :
  pc <> pc' \/ to <> to' ->
  Stats.entry (Stats.update CM t pc to v) pc' to' = Stats.entry t pc' to'.
Proof.
  intros Hne. rewrite update_unfold.
  destruct (Int.abs v >=? 324); [reflexivity|].
  apply entry_assign_ne. assumption.
Qed.

Lemma update_under_ceiling CM t pc to v :
  Z.abs v < 324 ->
  under_ceiling CM t -> under_ceiling CM (Stats.update CM t pc to v).
Proof.
  intros Hv Ht. rewrite update_unfold, guard_open by assumption.
  apply all_entries_assign; [|exact Ht].
  intros s Hs. simpl.
  apply UpdateRule.gain_decay_bounded;
    [apply divisor_cases | assumption | assumption].
Qed.

Lemma updates_under_ceiling CM calls t :
  Forall (fun call => Z.abs call.2 < 324) calls ->
  under_ceiling CM t -> under_ceiling CM (Stats.updates CM t calls).
Proof.
  unfold Stats.updates. intros Hcalls. revert t.
  induction Hcalls as [|call calls Hcall _ IH]; intros t Ht; simpl.
  - exact Ht.
  - apply IH. apply update_under_ceiling; assumption.
Qed.

(** The same for any observed values the guard can judge, those it rejects
    included. *)
Lemma update_any_under_ceiling CM t pc to v :
  Int.min_int < v <= Int.max_int ->
  under_ceiling CM t -> under_ceiling CM (Stats.update CM t pc to v).
Proof.
  intros Hr Ht. destruct (Z_lt_le_dec (Z.abs v) 324) as [Hv | Hv].
  - apply update_under_ceiling; assumption.
  - unfold Stats.update. rewrite guard_closed by assumption. exact Ht.
Qed.

Lemma updates_any_under_ceiling CM calls t :
  Forall (fun call => Int.min_int < call.2 <= Int.max_int) calls ->
  under_ceiling CM t -> under_ceiling CM (Stats.updates CM t calls).
Proof.
  unfold Stats.updates. intros Hcalls. revert t.
  induction Hcalls as [|call calls Hcall _ IH]; intros t Ht; simpl.
  - exact Ht.
  - apply IH. apply update_any_under_ceiling; assumption.
Qed.
End StatsUpdate.

Section FromToEntries.
Implicit Types (t : FromToStats.FromToStats) (c : Color) (f to : Square).

Lemma ft_entry_assign_eq t c f to g :
  FromToStats.entry (FromToStats.assign t c f to g) c f to
  = g <$> FromToStats.entry t c f to.
Proof.
  unfold FromToStats.entry, FromToStats.assign.
  rewrite list_lookup_alter_eq.
  destruct (t !! c) as [plane|]; simpl; [|reflexivity].
  rewrite list_lookup_alter_eq.
  destruct (plane !! f) as [row|]; simpl; [|reflexivity].
  apply list_lookup_alter_eq.
Qed.

Lemma ft_assign_assign t c f to g h :
  FromToStats.assign (FromToStats.assign t c f to g) c f to h
  = FromToStats.assign t c f to (compose h g).
Proof.
  unfold FromToStats.assign. rewrite list_alter_alter_eq.
  apply list_alter_ext; [|reflexivity].
  intros plane _. simpl. rewrite list_alter_alter_eq.
  apply list_alter_ext; [|reflexivity].
  intros row _. simpl. apply list_alter_alter_eq.
Qed.

Lemma ft_entry_clear COLOR_NB SQUARE_NB c f to :
  (c < COLOR_NB)%nat -> (f < SQUARE_NB)%nat -> (to < SQUARE_NB)%nat ->
  FromToStats.entry (FromToStats.clear COLOR_NB SQUARE_NB) c f to = Some 0.
Proof.
  intros Hc Hf Hto. unfold FromToStats.entry, FromToStats.clear.
  rewrite lookup_replicate_2 by assumption. simpl.
  rewrite lookup_replicate_2 by assumption. simpl.
  apply lookup_replicate_2. assumption.
Qed.

Lemma ft_all_entries_assign (P : Value -> Prop) t c f to g :
  (forall x, P x -> P (g x)) ->
  ft_all_entries P t -> ft_all_entries P (FromToStats.assign t c f to g).
Proof.
  intros Hg Ht. unfold ft_all_entries, FromToStats.assign.
  apply Forall_alter; [assumption|].
  intros plane _ Hplane. apply Forall_alter; [assumption|].
  intros row _ Hrow. apply Forall_alter; [assumption|]. auto.
Qed.

Lemma ft_all_entries_entry (P : Value -> Prop) t c f to x :
  ft_all_entries P t -> FromToStats.entry t c f to = Some x -> P x.
Proof.
  unfold ft_all_entries, FromToStats.entry. intros Ht H.
  destruct (t !! c) as [plane|] eqn:Hplane; simpl in H; [|discriminate].
  destruct (plane !! f) as [row|] eqn:Hrow; simpl in H; [|discriminate].
  eapply Forall_lookup_1; [|exact H].
  eapply Forall_lookup_1; [|exact Hrow].
  eapply Forall_lookup_1; [exact Ht | exact Hplane].
Qed.

Variables from_sq to_sq : Move -> Square.

Lemma ft_update_unfold t c m v :
  FromToStats.update from_sq to_sq t c m v =
  if Int.abs v >=? 324 then t
  else FromToStats.assign t c (from_sq m) (to_sq m)
         (compose (Stats.gain v) (Stats.decay 324 v)).
Proof.
  unfold FromToStats.update. destruct (Int.abs v >=? 324); [reflexivity|].
  apply ft_assign_assign.
Qed.

Lemma ft_get_update_eq t c m v s :
  Z.abs v < 324 ->
  FromToStats.get from_sq to_sq t c m = Some s ->
  FromToStats.get from_sq to_sq (FromToStats.update from_sq to_sq t c m v)
    c m
  = Some (Stats.gain v (Stats.decay 324 v s)).
Proof.
  unfold FromToStats.get. intros Hv Hs.
  rewrite ft_update_unfold, guard_open by assumption.
  rewrite ft_entry_assign_eq, Hs. reflexivity.
Qed.

Lemma ft_update_under_ceiling t c m v :
  Z.abs v < 324 ->
  ft_under_ceiling t ->
  ft_under_ceiling (FromToStats.update from_sq to_sq t c m v).
Proof.
  intros Hv Ht. rewrite ft_update_unfold, guard_open by assumption.
  apply ft_all_entries_assign; [|exact Ht].
  intros s Hs. simpl.
  apply UpdateRule.gain_decay_bounded; [left; reflexivity | | ]; assumption.
Qed.

Lemma ft_updates_under_ceiling calls t :
  Forall (fun call => Z.abs call.2 < 324) calls ->
  ft_under_ceiling t ->
  ft_under_ceiling (FromToStats.updates from_sq to_sq t calls).
Proof.
  unfold FromToStats.updates. intros Hcalls. revert t.
  induction Hcalls as [|call calls Hcall _ IH]; intros t Ht; simpl.
  - exact Ht.
  - apply IH. apply ft_update_under_ceiling; assumption.
Qed.

Lemma ft_update_any_under_ceiling t c m v :
  Int.min_int < v <= Int.max_int ->
  ft_under_ceiling t ->
  ft_under_ceiling (FromToStats.update from_sq to_sq t c m v).
Proof.
  intros Hr Ht. destruct (Z_lt_le_dec (Z.abs v) 324) as [Hv | Hv].
  - apply ft_update_under_ceiling; assumption.
  - unfold FromToStats.update. rewrite guard_closed by assumption. exact Ht.
Qed.

Lemma ft_updates_any_under_ceiling calls t :
  Forall (fun call => Int.min_int < call.2 <= Int.max_int) calls ->
  ft_under_ceiling t ->
  ft_under_ceiling (FromToStats.updates from_sq to_sq t calls).
Proof.
  unfold FromToStats.updates. intros Hcalls. revert t.
  induction Hcalls as [|call calls Hcall _ IH]; intros t Ht; simpl.
  - exact Ht.
  - apply IH. apply ft_update_any_under_ceiling; assumption.
Qed.
End FromToEntries.

(** ** The update of a stored value *)

(** Where the product [s * |v|] stays inside the 32-bit [int], the two
    statements of the update are the rule: an update with [|v| < 324] turns
    the stored [s] into [s - s * |v| / d + v * 32]. *)
Lemma rule_where_product_fits :
  forall (from_sq to_sq : Move -> Square) (CM : bool)
         (t : Stats.Stats Value) (pc : Piece) (to : Square)
         (ft : FromToStats.FromToStats) (c : Color) (m : Move)
         (v s s' : Value),
    Z.abs v < 324 ->
    Stats.entry t pc to = Some s ->
    Int.in_range s -> Int.in_range (s * Z.abs v) ->
    FromToStats.get from_sq to_sq ft c m = Some s' ->
    Int.in_range s' -> Int.in_range (s' * Z.abs v) ->
    Stats.entry (Stats.update CM t pc to v) pc to
    = Some (Rule.rule (if CM then 936 else 324) s v)
    /\ FromToStats.get from_sq to_sq
         (FromToStats.update from_sq to_sq ft c m v) c m
       = Some (Rule.rule 324 s' v).
Proof.
  intros from_sq to_sq CM t pc to ft c m v s s' Hv Hs Hr Hp Hs' Hr' Hp'.
  split.
  - rewrite (entry_update_eq CM t pc to v s Hv Hs). f_equal.
    apply UpdateRule.gain_decay_exact; try assumption.
    apply divisor_cases.
  - rewrite (ft_get_update_eq from_sq to_sq ft c m v s' Hv Hs'). f_equal.
    apply UpdateRule.gain_decay_exact; try assumption. left; reflexivity.
Qed.

(** C1: on every table the code builds, that is a table cleared and then
    updated any number of times, with any observed values whose [abs] is
    defined (every [int] but [INT_MIN]; those with [|v| >= 324] are
    ignored), an update with [|v| < 324] turns the stored value [s] of every
    [Stats<Value>] and [FromToStats] entry into [s - s * |v| / d + v * 32],
    the division truncating toward zero, with [d = 324] for the history and
    from-to tables and [d = 936] for the countermove flavour.  No product
    leaves the [int] on such a table. *)
Theorem update_applies_rule :
  forall (PIECE_NB SQUARE_NB COLOR_NB : nat)
         (from_sq to_sq : Move -> Square) (CM : bool)
         (calls : list (Piece * Square * Value))
         (ft_calls : list (Color * Move * Value))
         (pc : Piece) (to : Square) (c : Color) (m : Move)
         (v s s' : Value),
    Forall (fun call => Int.min_int < call.2 <= Int.max_int) calls ->
    Forall (fun call => Int.min_int < call.2 <= Int.max_int) ft_calls ->
    Z.abs v < 324 ->
    let t := Stats.updates CM (Stats.clear PIECE_NB SQUARE_NB 0) calls in
    let ft := FromToStats.updates from_sq to_sq
                (FromToStats.clear COLOR_NB SQUARE_NB) ft_calls in
    Stats.entry t pc to = Some s ->
    FromToStats.get from_sq to_sq ft c m = Some s' ->
    Stats.entry (Stats.update CM t pc to v) pc to
    = Some (Rule.rule (if CM then 936 else 324) s v)
    /\ FromToStats.get from_sq to_sq
         (FromToStats.update from_sq to_sq ft c m v) c m
       = Some (Rule.rule 324 s' v).
Proof.
  intros PIECE_NB SQUARE_NB COLOR_NB from_sq to_sq CM calls ft_calls
         pc to c m v s s' Hcalls Hft Hv t ft Hs Hs'.
  assert (Hinv : under_ceiling CM t).
  { apply updates_any_under_ceiling; [exact Hcalls|].
    apply all_entries_clear. unfold Rule.ceiling. destruct CM; simpl; lia. }
  assert (Hft_inv : ft_under_ceiling ft).
  { apply ft_updates_any_under_ceiling; [exact Hft|].
    unfold ft_under_ceiling, ft_all_entries, FromToStats.clear.
    apply Forall_replicate, Forall_replicate, Forall_replicate.
    unfold Rule.ceiling. lia. }
  pose proof (all_entries_entry _ _ _ _ _ Hinv Hs) as Hb. simpl in Hb.
  unfold FromToStats.get in Hs'.
  pose proof (ft_all_entries_entry _ _ _ _ _ _ Hft_inv Hs') as Hb'.
  simpl in Hb'.
  destruct (UpdateRule.ceiling_in_range _ s v (divisor_cases CM) Hv Hb)
    as [Hr Hp].
  destruct (UpdateRule.ceiling_in_range 324 s' v (or_introl eq_refl) Hv Hb')
    as [Hr' Hp'].
  apply rule_where_product_fits; assumption.
Qed.

Lemma update_applies_rule_witness :
  let t := Stats.updates true
             (Stats.clear Board.PIECE_NB Board.SQUARE_NB 0)
             [ (1%nat, 0%nat, 100); (1%nat, 0%nat, 500);
               (1%nat, 0%nat, -50) ] in
  let ft := FromToStats.updates Board.from_sq Board.to_sq
              (FromToStats.clear Board.COLOR_NB Board.SQUARE_NB)
              [ (0%nat, Board.make_move 12 28, 100);
                (0%nat, Board.make_move 12 28, -2000) ] in
  Stats.entry (Stats.update true t 1%nat 0%nat (-323)) 1%nat 0%nat
  = Some (Rule.rule 936 1430 (-323))
  /\ FromToStats.get Board.from_sq Board.to_sq
       (FromToStats.update Board.from_sq Board.to_sq ft 0%nat
          (Board.make_move 12 28) (-323))
       0%nat (Board.make_move 12 28)
     = Some (Rule.rule 324 3200 (-323)).
Proof.
  apply (update_applies_rule Board.PIECE_NB Board.SQUARE_NB Board.COLOR_NB
           Board.from_sq Board.to_sq true
           [ (1%nat, 0%nat, 100); (1%nat, 0%nat, 500); (1%nat, 0%nat, -50) ]
           [ (0%nat, Board.make_move 12 28, 100);
             (0%nat, Board.make_move 12 28, -2000) ]
           1%nat 0%nat 0%nat (Board.make_move 12 28) (-323) 1430 3200).
  - repeat constructor; simpl; unfold Int.min_int, Int.max_int; lia.
  - repeat constructor; simpl; unfold Int.min_int, Int.max_int; lia.
  - reflexivity.
  - reflexivity.
  - reflexivity.
Defined.

(** ** Boundedness *)

(** C2: from the cleared table, after any number of updates whose observed
    values all satisfy [|v| < 324], every stored entry is below
    [Max = 2^28] in magnitude; this holds for both flavours of [Stats<Value>]
    and for [FromToStats], and at every moment of the sequence. *)
Theorem stored_values_below_Max :
  forall (PIECE_NB SQUARE_NB COLOR_NB : nat)
         (from_sq to_sq : Move -> Square) (CM : bool)
         (calls : list (Piece * Square * Value))
         (ft_calls : list (Color * Move * Value)) (n : nat),
    Forall (fun call => Z.abs call.2 < 324) calls ->
    Forall (fun call => Z.abs call.2 < 324) ft_calls ->
    (forall pc to s,
        Stats.entry
          (Stats.updates CM (Stats.clear PIECE_NB SQUARE_NB 0)
             (take n calls)) pc to = Some s ->
        Z.abs s < Stats.Max)
    /\ (forall c f to s,
        FromToStats.entry
          (FromToStats.updates from_sq to_sq
             (FromToStats.clear COLOR_NB SQUARE_NB) (take n ft_calls))
          c f to = Some s ->
        Z.abs s < Stats.Max).
Proof.
  intros PIECE_NB SQUARE_NB COLOR_NB from_sq to_sq CM calls ft_calls n
         Hcalls Hft.
  split.
  - intros pc to s Hs.
    assert (Hinv : under_ceiling CM
              (Stats.updates CM (Stats.clear PIECE_NB SQUARE_NB 0)
                 (take n calls))).
    { apply updates_under_ceiling; [apply Forall_take; exact Hcalls|].
      apply all_entries_clear. unfold Rule.ceiling.
      destruct CM; simpl; lia. }
    pose proof (all_entries_entry _ _ _ _ _ Hinv Hs) as Hb. simpl in Hb.
    pose proof (UpdateRule.ceiling_below_Max _ (divisor_cases CM)). lia.
  - intros c f to s Hs.
    assert (Hinv : ft_under_ceiling
              (FromToStats.updates from_sq to_sq
                 (FromToStats.clear COLOR_NB SQUARE_NB) (take n ft_calls))).
    { apply ft_updates_under_ceiling; [apply Forall_take; exact Hft|].
      unfold ft_under_ceiling, ft_all_entries, FromToStats.clear.
      apply Forall_replicate, Forall_replicate, Forall_replicate.
      unfold Rule.ceiling. lia. }
    pose proof (ft_all_entries_entry _ _ _ _ _ _ Hinv Hs) as Hb.
    simpl in Hb.
    pose proof (UpdateRule.ceiling_below_Max 324 (or_introl eq_refl)). lia.
Qed.

Lemma stored_values_below_Max_witness :
  (forall pc to s,
      Stats.entry
        (Stats.updates true (Stats.clear Board.PIECE_NB Board.SQUARE_NB 0)
           (take 2 [ (1%nat, 0%nat, 323); (1%nat, 0%nat, 323);
                     (1%nat, 0%nat, -5) ])) pc to = Some s ->
      Z.abs s < Stats.Max)
  /\ (forall c f to s,
      FromToStats.entry
        (FromToStats.updates Board.from_sq Board.to_sq
           (FromToStats.clear Board.COLOR_NB Board.SQUARE_NB)
           (take 2 [ (0%nat, Board.make_move 12 28, 323);
                     (1%nat, Board.make_move 52 36, -323) ]))
        c f to = Some s ->
      Z.abs s < Stats.Max).
Proof.
  apply (stored_values_below_Max Board.PIECE_NB Board.SQUARE_NB
           Board.COLOR_NB Board.from_sq Board.to_sq true).
  - repeat constructor.
  - repeat constructor.
Defined.

(** ** Rejected observations *)

(** What the guard rejects: for every table state and key, an update with
    an observed value [v] above [INT_MIN] and with [|v| >= 324] leaves the
    whole table as it was, in [Stats] and in [FromToStats]. *)
Lemma update_rejects_outliers :
  forall (from_sq to_sq : Move -> Square) (CM : bool)
         (t : Stats.Stats Value) (pc : Piece) (to : Square)
         (ft : FromToStats.FromToStats) (c : Color) (m : Move) (v : Value),
    Int.min_int < v <= Int.max_int ->
    324 <= Z.abs v ->
    Stats.update CM t pc to v = t
    /\ FromToStats.update from_sq to_sq ft c m v = ft.
Proof.
  intros from_sq to_sq CM t pc to ft c m v Hr Hv. split.
  - unfold Stats.update. rewrite guard_closed by assumption. reflexivity.
  - unfold FromToStats.update. rewrite guard_closed by assumption.
    reflexivity.
Qed.

Lemma update_rejects_outliers_witness :
  Stats.update false Board.history_after_scenario 1%nat 0%nat 324
  = Board.history_after_scenario
  /\ FromToStats.update Board.from_sq Board.to_sq
       (FromToStats.clear Board.COLOR_NB Board.SQUARE_NB) 0%nat
       (Board.make_move 12 28) 324
     = FromToStats.clear Board.COLOR_NB Board.SQUARE_NB.
Proof.
  apply (update_rejects_outliers Board.from_sq Board.to_sq false).
  - unfold Int.min_int, Int.max_int. lia.
  - simpl. lia.
Defined.

(** C3: the guard [abs(int(v)) >= 324] is there to reject every observed
    value with [|v| >= 324], and it misses one: at [v = INT_MIN] the [abs]
    of the [int] overflows, on two's complement back to [INT_MIN], the test
    [>= 324] does not fire and the update goes on.  On the history table
    after the scenario of section 8 the entry 1107 becomes 6629142, far
    beyond what any accepted observation can store, where the claim says
    that the table stays as it is. *)
Theorem update_at_min_int_changes_table :
  324 <= Z.abs Int.min_int
  /\ Int.in_range Int.min_int
  /\ Int.abs Int.min_int = Int.min_int
  /\ (Int.abs Int.min_int >=? 324) = false
  /\ Stats.entry Board.history_after_scenario 1%nat 0%nat = Some 1107
  /\ Stats.entry
       (Stats.update false Board.history_after_scenario 1%nat 0%nat
          Int.min_int) 1%nat 0%nat
     = Some 6629142
  /\ Stats.update false Board.history_after_scenario 1%nat 0%nat Int.min_int
     <> Board.history_after_scenario.
Proof.
  split; [vm_compute; discriminate|].
  split; [unfold Int.in_range, Int.min_int, Int.max_int; lia|].
  split; [reflexivity|]. split; [reflexivity|]. split; [reflexivity|].
  split; [vm_compute; reflexivity|].
  intros H.
  apply (f_equal (fun t : Stats.Stats Value => Stats.entry t 1%nat 0%nat))
    in H.
  vm_compute in H. discriminate.
Qed.

(** ** The scenario of the specification *)

(** C4: on a cleared table and any key, an update with value 100 stores
    exactly 3200 and a following update of the same key with value -50
    stores exactly 1107; the [FromToStats] table, with the same divisor 324,
    does the same. *)
Theorem scenario_3200_then_1107 :
  forall (PIECE_NB SQUARE_NB COLOR_NB : nat)
         (from_sq to_sq : Move -> Square)
         (pc : Piece) (to : Square) (c : Color) (m : Move),
    (pc < PIECE_NB)%nat -> (to < SQUARE_NB)%nat ->
    (c < COLOR_NB)%nat ->
    (from_sq m < SQUARE_NB)%nat -> (to_sq m < SQUARE_NB)%nat ->
    let t1 := Stats.update false (Stats.clear PIECE_NB SQUARE_NB 0) pc to 100
    in
    let ft1 := FromToStats.update from_sq to_sq
                 (FromToStats.clear COLOR_NB SQUARE_NB) c m 100 in
    Stats.entry t1 pc to = Some 3200
    /\ Stats.entry (Stats.update false t1 pc to (-50)) pc to = Some 1107
    /\ FromToStats.get from_sq to_sq ft1 c m = Some 3200
    /\ FromToStats.get from_sq to_sq
         (FromToStats.update from_sq to_sq ft1 c m (-50)) c m = Some 1107.
Proof.
  intros PIECE_NB SQUARE_NB COLOR_NB from_sq to_sq pc to c m
         Hpc Hto Hc Hf Ht t1 ft1.
  assert (H1 : Stats.entry t1 pc to = Some 3200).
  { unfold t1.
    rewrite (entry_update_eq false _ pc to 100 0);
      [reflexivity | reflexivity | apply entry_clear; assumption]. }
  assert (H2 : FromToStats.get from_sq to_sq ft1 c m = Some 3200).
  { unfold ft1.
    rewrite (ft_get_update_eq from_sq to_sq _ c m 100 0);
      [reflexivity | reflexivity |].
    apply ft_entry_clear; assumption. }
  split; [exact H1|]. split; [|split; [exact H2|]].
  - rewrite (entry_update_eq false t1 pc to (-50) 3200);
      [reflexivity | reflexivity | exact H1].
  - rewrite (ft_get_update_eq from_sq to_sq ft1 c m (-50) 3200);
      [reflexivity | reflexivity | exact H2].
Qed.

Lemma scenario_3200_then_1107_witness :
  let t1 := Stats.update false
              (Stats.clear Board.PIECE_NB Board.SQUARE_NB 0) 14%nat 63%nat 100
  in
  let ft1 := FromToStats.update Board.from_sq Board.to_sq
               (FromToStats.clear Board.COLOR_NB Board.SQUARE_NB) 1%nat
               (Board.make_move 52 36) 100 in
  Stats.entry t1 14%nat 63%nat = Some 3200
  /\ Stats.entry (Stats.update false t1 14%nat 63%nat (-50)) 14%nat 63%nat
     = Some 1107
  /\ FromToStats.get Board.from_sq Board.to_sq ft1 1%nat
       (Board.make_move 52 36) = Some 3200
  /\ FromToStats.get Board.from_sq Board.to_sq
       (FromToStats.update Board.from_sq Board.to_sq ft1 1%nat
          (Board.make_move 52 36) (-50)) 1%nat (Board.make_move 52 36)
     = Some 1107.
Proof.
  apply (scenario_3200_then_1107 Board.PIECE_NB Board.SQUARE_NB
           Board.COLOR_NB Board.from_sq Board.to_sq 14%nat 63%nat 1%nat
           (Board.make_move 52 36));
    vm_compute; lia.
Defined.

(** The countermove flavour divides by 936 and stores 1430 at the second
    step. *)
Lemma scenario_countermove_flavour :
  Stats.entry
    (Stats.updates true (Stats.clear Board.PIECE_NB Board.SQUARE_NB 0)
       [ (1%nat, 0%nat, 100); (1%nat, 0%nat, -50) ]) 1%nat 0%nat
  = Some 1430.
Proof. reflexivity. Qed.

(** ** Keys of a [Stats] table *)

(** C9: a [Stats] table is keyed by the piece and the destination square
    only.  After [update(pc, to_sq(m), k)] or [update(pc, to_sq(m), v)] the
    lookup for any move [m'] of the same piece to the same destination
    reads the new entry, whatever the origin squares of [m] and [m'] are. *)
Theorem stats_keyed_by_piece_and_destination :
  forall (to_sq : Move -> Square) (CM : bool)
         (moves : Stats.Stats Move) (history : Stats.Stats Value)
         (pc : Piece) (m m' k old : Move) (v s : Value),
    to_sq m = to_sq m' ->
    Stats.of_move to_sq moves pc m = Some old ->
    Stats.of_move to_sq history pc m = Some s ->
    Stats.of_move to_sq (Stats.update_move moves pc (to_sq m) k) pc m'
    = Some k
    /\ Stats.of_move to_sq (Stats.update CM history pc (to_sq m) v) pc m'
       = Some (if Int.abs v >=? 324 then s
               else Stats.gain v (Stats.decay (Stats.divisor CM) v s))
    /\ Stats.of_move to_sq (Stats.update CM history pc (to_sq m) v) pc m'
       = Stats.of_move to_sq (Stats.update CM history pc (to_sq m) v) pc m.
Proof.
  unfold Stats.of_move.
  intros to_sq CM moves history pc m m' k old v s Hto Hold Hs.
  rewrite <- Hto. split; [|split; [|reflexivity]].
  - eapply entry_update_move. exact Hold.
  - rewrite update_unfold. destruct (Int.abs v >=? 324); [exact Hs|].
    rewrite entry_assign_eq, Hs. reflexivity.
Qed.

Lemma stats_keyed_by_piece_and_destination_witness :
  (* e2-e4 and d3-e4 of the white pawn *)
  let m := Board.make_move 12 28 in
  let m' := Board.make_move 19 28 in
  let moves := Stats.clear Board.PIECE_NB Board.SQUARE_NB MOVE_NONE in
  let history := Board.history_after_scenario in
  Board.from_sq m <> Board.from_sq m'
  /\ Stats.of_move Board.to_sq
       (Stats.update_move moves 1%nat (Board.to_sq m) 3364) 1%nat m'
     = Some 3364
  /\ Stats.of_move Board.to_sq
       (Stats.update false history 1%nat (Board.to_sq m) 7) 1%nat m'
     = Some 224.
Proof.
  intros m m' moves history. split; [vm_compute; discriminate|].
  destruct (stats_keyed_by_piece_and_destination Board.to_sq false
              moves history 1%nat m m' 3364 MOVE_NONE 7 0)
    as (H1 & H2 & _); [reflexivity | reflexivity | reflexivity |].
  split; [exact H1 | exact H2].
Defined.

(** ** The enumeration and the dispatch table *)

(** C8, as it holds on the code: from every stage that is not the last of
    its family the next integer of the enumeration is the next stage of the
    family, so normal search runs through MAIN_SEARCH, GOOD_CAPTURES,
    KILLERS, QUIET and BAD_CAPTURES by increments; the last stage of a
    family is followed in the enumeration by the first stage of the next
    family, and only after RECAPTURES is the next integer STOP. *)
Theorem stage_successor_within_family :
  forall s : Stages,
    family_last s = false -> s <> STOP ->
    advance s = Some (family_next s)
    /\ map stage_value
         [MAIN_SEARCH; GOOD_CAPTURES; KILLERS; QUIET; BAD_CAPTURES]
       = [0; 1; 2; 3; 4]%nat
    /\ (forall l, family_last l = true -> family_next l = STOP)
    /\ advance BAD_CAPTURES = Some EVASION
    /\ advance ALL_EVASIONS = Some QSEARCH_WITH_CHECKS
    /\ advance CHECKS = Some QSEARCH_WITHOUT_CHECKS
    /\ advance QCAPTURES_2 = Some PROBCUT
    /\ advance PROBCUT_CAPTURES = Some RECAPTURE
    /\ advance RECAPTURES = Some STOP.
Proof.
  intros s Hlast Hstop. split.
  - destruct s; try reflexivity; try discriminate Hlast. congruence.
  - split; [reflexivity|]. split.
    + intros []; simpl; intros H; try reflexivity; discriminate H.
    + repeat split.
Qed.

Lemma stage_successor_within_family_witness :
  advance QUIET = Some BAD_CAPTURES.
Proof.
  apply (stage_successor_within_family QUIET); [reflexivity | discriminate].
Defined.

(** C8 as worded fails at the end of the normal-search family: the integer
    after BAD_CAPTURES is EVASION, while the family ends in STOP. *)
Lemma successor_of_BAD_CAPTURES_is_not_STOP :
  family_next BAD_CAPTURES = STOP
  /\ stage_value BAD_CAPTURES = 4%nat
  /\ stage_value STOP = 16%nat
  /\ advance BAD_CAPTURES = Some EVASION
  /\ advance BAD_CAPTURES <> Some (family_next BAD_CAPTURES).
Proof. repeat split. discriminate. Qed.

(** C10: the table [generators] has [STAGE_NB] entries and its entry at the
    value of a stage, STOP included, is [generate_next_stage] instantiated
    for that very stage. *)
Theorem generators_indexed_by_stage :
  length generators = STAGE_NB
  /\ forall s : Stages,
       generators !! stage_value s = Some (generate_next_stage_at s).
Proof. split; [reflexivity|]. intros []; reflexivity. Qed.

Lemma stage_of_value_of_stage s : stage_of_value (stage_value s) = Some s.
Proof. destruct s; reflexivity. Qed.

Lemma stage_value_below_STAGE_NB s : (stage_value s < STAGE_NB)%nat.
Proof. destruct s; unfold STAGE_NB; simpl; lia. Qed.

(** ** Selection and sorting inside a batch *)

Section Selection.

Implicit Types (l : list ExtMove) (e : ExtMove).

Lemma max_element_lookup l i best :
  max_element l = Some (i, best) -> l !! i = Some best.
Proof.
  revert i best. induction l as [|x rest IH]; intros i best H; simpl in H.
  - discriminate.
  - destruct (max_element rest) as [[j y]|] eqn:Hrest.
    + destruct (value x <? value y); inversion H; subst; simpl.
      * apply IH. reflexivity.
      * reflexivity.
    + inversion H; subst. reflexivity.
Qed.

Lemma max_element_is_max l i best :
  max_element l = Some (i, best) ->
  forall e, List.In e l -> value e <= value best.
Proof.
  revert i best. induction l as [|x rest IH]; intros i best H e He.
  - destruct He.
  - simpl in H. destruct (max_element rest) as [[j y]|] eqn:Hrest.
    + specialize (IH j y eq_refl).
      destruct (Z.ltb_spec (value x) (value y)); inversion H; subst;
        destruct He as [<- | He]; try lia;
        specialize (IH e He); lia.
    + destruct rest; [|simpl in Hrest;
        destruct (max_element rest) as [[? ?]|];
        [destruct (_ <? _)|]; discriminate].
      inversion H; subst. destruct He as [<- | []]. lia.
Qed.

Lemma max_element_some l : l <> [] -> exists r, max_element l = Some r.
Proof.
  destruct l as [|x rest]; [congruence|]. intros _. simpl.
  destruct (max_element rest) as [[j y]|]; [|eauto].
  destruct (value x <? value y); eauto.
Qed.

(** Writing [x] over the entry [b] of a list and putting [b] in front is a
    rearrangement of the list with [x] in front. *)
Lemma swap_to_front (x b : ExtMove) l j :
  l !! j = Some b -> Permutation (x :: l) (b :: <[j := x]> l).
Proof.
  revert j. induction l as [|y rest IH]; intros j H.
  - destruct j; discriminate.
  - destruct j as [|j]; simpl in *.
    + inversion H; subst. apply perm_swap.
    + specialize (IH j H).
      transitivity (y :: x :: rest); [apply perm_swap|].
      transitivity (y :: b :: <[j := x]> rest);
        [apply perm_skip; exact IH | apply perm_swap].
Qed.

Lemma pick_best_nil l : pick_best l = None <-> l = [].
Proof.
  split.
  - destruct l as [|x rest]; [reflexivity|]. unfold pick_best.
    destruct (max_element_some (x :: rest)) as [[i b] ->]; [congruence|].
    discriminate.
  - intros ->. reflexivity.
Qed.

Lemma pick_best_Permutation l best rest :
  pick_best l = Some (best, rest) -> Permutation l (best :: rest).
Proof.
  destruct l as [|x t]; [discriminate|]. unfold pick_best.
  destruct (max_element (x :: t)) as [[i b]|] eqn:Hmax; [|discriminate].
  intros H. inversion H; subst. clear H.
  apply max_element_lookup in Hmax.
  destruct i as [|j]; simpl in *.
  - inversion Hmax; subst. reflexivity.
  - apply swap_to_front. exact Hmax.
Qed.

Lemma pick_best_length l best rest :
  pick_best l = Some (best, rest) -> length l = S (length rest).
Proof.
  intros H. apply pick_best_Permutation in H.
  apply Permutation_length in H. exact H.
Qed.

Lemma pick_best_is_best l best rest :
  pick_best l = Some (best, rest) ->
  forall e, List.In e l -> value e <= value best.
Proof.
  destruct l as [|x t]; [discriminate|]. unfold pick_best.
  destruct (max_element (x :: t)) as [[i b]|] eqn:Hmax; [|discriminate].
  intros H. inversion H; subst. eapply max_element_is_max. exact Hmax.
Qed.

Lemma selection_order_step l best rest :
  pick_best l = Some (best, rest) ->
  selection_order (length l) l = best :: selection_order (length rest) rest.
Proof.
  intros H. rewrite (pick_best_length _ _ _ H). simpl. rewrite H.
  reflexivity.
Qed.

Lemma selection_order_Permutation n :
  forall l, length l = n -> Permutation (selection_order n l) l.
Proof.
  induction n as [|n IH]; intros l Hn.
  - destruct l; [reflexivity | discriminate].
  - simpl. destruct (pick_best l) as [[best rest]|] eqn:Hpick.
    + pose proof (pick_best_length _ _ _ Hpick) as Hlen.
      rewrite (pick_best_Permutation _ _ _ Hpick).
      apply perm_skip. apply IH. lia.
    + apply pick_best_nil in Hpick. subst. discriminate.
Qed.

Lemma insert_sorted_Permutation x l :
  Permutation (insert_sorted x l) (x :: l).
Proof.
  induction l as [|y rest IH]; simpl.
  - reflexivity.
  - destruct (value y <? value x); [reflexivity|].
    rewrite IH. apply perm_swap.
Qed.

Lemma insertion_sort_Permutation l : Permutation (insertion_sort l) l.
Proof.
  induction l as [|x rest IH]; simpl.
  - reflexivity.
  - rewrite insert_sorted_Permutation. apply perm_skip. exact IH.
Qed.

End Selection.

(** ** One pass of the loop *)

Section Step.

Variable to_sq : Move -> Square.
Variable score_of : GenType -> Position -> Move -> Value.

Local Abbreviation step' := (step to_sq score_of).
Local Abbreviation dispatch' := (dispatch score_of).
Local Abbreviation enter' := (enter score_of).
Local Abbreviation yields' := (yields to_sq).
Local Abbreviation passes' := (passes to_sq).
Local Abbreviation pending' := (pending to_sq score_of).
Local Abbreviation pending_over' := (pending_over to_sq score_of).
Local Abbreviation next_move' := (next_move to_sq score_of).
Local Abbreviation next_move_loop' := (next_move_loop to_sq score_of).
Local Abbreviation consume' := (consume to_sq score_of).
Local Abbreviation after_calls' := (after_calls to_sq score_of).

Lemma step_STOP mp : stage mp = STOP -> step' mp = Return MOVE_NONE mp.
Proof. intros H. unfold step. rewrite H. reflexivity. Qed.

Lemma step_empty mp :
  stage mp <> STOP -> moves mp = [] -> step' mp = Again (dispatch' mp).
Proof.
  intros Hs Hm. unfold step. rewrite Hm.
  destruct (stage mp); congruence.
Qed.

Lemma dispatch_enter mp : dispatch' mp = enter' (family_next (stage mp)) mp.
Proof.
  unfold dispatch. destruct (stage mp); reflexivity.
Qed.

Lemma stage_enter s mp : stage (enter' s mp) = s.
Proof. destruct s; reflexivity. Qed.

Lemma pos_enter s mp : pos (enter' s mp) = pos mp.
Proof. destruct s; reflexivity. Qed.

Lemma ttMove_enter s mp : ttMove (enter' s mp) = ttMove mp.
Proof. destruct s; reflexivity. Qed.

Lemma rank_family_next s : rank (family_next s) = pred (rank s).
Proof. destruct s; reflexivity. Qed.

Lemma rank_zero s : rank s = 0%nat <-> s = STOP.
Proof. destruct s; simpl; split; congruence. Qed.

Lemma step_in_batch mp :
  stage mp <> STOP -> moves mp <> [] ->
  match step' mp with
  | Return m mp' =>
      yields' mp = m :: yields' mp'
      /\ stage mp' = stage mp /\ drain mp' = drain mp
  | Again mp' =>
      yields' mp = yields' mp'
      /\ stage mp' = stage mp /\ drain mp' = drain mp
      /\ (passes_left mp' < passes_left mp)%nat
      /\ (length (moves mp') < length (moves mp))%nat
  end.
Proof.
  intros Hs Hm.
  destruct mp as [p s cm d tt k rs th st bad mv]. simpl in Hs, Hm.
  destruct mv as [|first rest0]; [congruence|]. clear Hm.
  destruct st; try congruence; clear Hs;
    unfold step, pick_if, take_if;
    cbn [stage moves pos ttMove killers threshold recaptureSquare
         badCaptures];
    try (match goal with
         | |- context [pick_best ?l] =>
             let Hp := fresh "Hp" in
             destruct (pick_best l) as [[best rest]|] eqn:Hp;
             [ pose proof (pick_best_length _ _ _ Hp) as Hlen
             | apply pick_best_nil in Hp; discriminate ]
         end);
    repeat (match goal with
            | |- match (if ?c then _ else _) with _ => _ end =>
                let Hc := fresh "Hc" in destruct c eqn:Hc
            end);
    unfold yields, drain, deferred, batch_order, handed_out,
           passes, passes_left, set_moves, set_badCaptures,
           not_ttMove in *;
    cbn [stage moves pos ttMove killers threshold recaptureSquare
         badCaptures ss countermove depth
         family_head weight before_BAD_CAPTURES] in *;
    try (rewrite (selection_order_step _ _ _ Hp));
    cbn [List.filter map length];
    try rewrite Hlen;
    repeat (match goal with
            | H : ?c = _ |- context [?c] => rewrite H
            end);
    cbn [negb andb List.filter map];
    repeat split; try reflexivity;
    try (rewrite <- app_assoc; reflexivity);
    try (simpl in Hlen); rewrite ?length_app; simpl length; lia.
Qed.

Lemma filter_none {A} (l : list A) : List.filter (fun _ => false) l = [].
Proof. induction l; simpl; auto. Qed.

Lemma yields_empty mp : moves mp = [] -> yields' mp = [].
Proof.
  intros H. unfold yields, batch_order. rewrite H.
  destruct (stage mp); reflexivity.
Qed.

Lemma yields_STOP mp : stage mp = STOP -> yields' mp = [].
Proof.
  intros H. unfold yields, passes. rewrite H.
  rewrite filter_none. reflexivity.
Qed.

Lemma drain_empty mp : moves mp = [] -> drain mp = mp.
Proof.
  destruct mp as [p s cm d tt k rs th st bad mv]. simpl. intros ->.
  unfold drain, deferred, batch_order, set_moves, set_badCaptures. simpl.
  replace (bad ++ _) with bad; [reflexivity|].
  destruct st; simpl; rewrite ?app_nil_r; reflexivity.
Qed.

Lemma stage_drain mp : stage (drain mp) = stage mp.
Proof. reflexivity. Qed.

Lemma pending_STOP mp : stage mp = STOP -> pending' mp = [].
Proof.
  intros H. unfold pending. rewrite H. simpl.
  rewrite yields_STOP by assumption. reflexivity.
Qed.

Lemma pending_unfold mp :
  stage mp <> STOP ->
  pending' mp = yields' mp ++ pending' (dispatch' (drain mp)).
Proof.
  intros Hs. unfold pending.
  rewrite dispatch_enter, stage_enter, stage_drain, rank_family_next.
  destruct (rank (stage mp)) as [|k] eqn:Hr.
  - apply rank_zero in Hr. contradiction.
  - simpl. rewrite dispatch_enter. reflexivity.
Qed.

Lemma length_killer_slots mp : (length (killer_slots mp) <= 3)%nat.
Proof.
  unfold killer_slots, slots. destruct (ss mp) as [s|]; simpl; [|lia].
  destruct (Move_eqb _ _); destruct (_ || _); simpl; lia.
Qed.

Lemma length_scored g p : length (scored score_of g p) = length (generate p g).
Proof. unfold scored. apply length_map. Qed.

Lemma dispatch_passes_left mp :
  stage mp <> STOP -> moves mp = [] ->
  (passes_left (dispatch' mp) < passes_left mp)%nat.
Proof.
  intros Hs Hm. rewrite dispatch_enter.
  pose proof (length_killer_slots (set_stage mp KILLERS)) as Hk.
  destruct mp as [p s cm d tt k rs th st bad mv]. simpl in *. subst mv.
  destruct st; try congruence; clear Hs;
    unfold passes_left, enter; simpl;
    rewrite ?length_scored, ?length_map;
    rewrite ?(Permutation_length (insertion_sort_Permutation _));
    rewrite ?length_scored; try lia.
Qed.

(** A pass either returns the next pending move or leaves the pending moves
    as they are and has fewer passes left. *)
Lemma step_pending mp :
  match step' mp with
  | Return m mp' =>
      (stage mp = STOP /\ m = MOVE_NONE /\ mp' = mp)
      \/ (stage mp <> STOP /\ pending' mp = m :: pending' mp'
          /\ stage mp' = stage mp)
  | Again mp' =>
      pending' mp = pending' mp' /\ (passes_left mp' < passes_left mp)%nat
  end.
Proof.
  destruct (decide (stage mp = STOP)) as [Hs | Hs].
  { rewrite step_STOP by assumption. left. auto. }
  destruct (moves mp) as [|first rest] eqn:Hm.
  - rewrite step_empty by assumption. split.
    + rewrite pending_unfold by assumption.
      rewrite yields_empty, drain_empty by assumption. reflexivity.
    + apply dispatch_passes_left; assumption.
  - pose proof (step_in_batch mp Hs) as H. rewrite Hm in H.
    specialize (H ltac:(discriminate)).
    destruct (step' mp) as [m mp' | mp'].
    + destruct H as (Hy & Hst & Hd). right. split; [assumption|].
      split; [|assumption].
      rewrite (pending_unfold mp) by assumption.
      rewrite (pending_unfold mp') by congruence.
      rewrite Hy, Hd. reflexivity.
    + destruct H as (Hy & Hst & Hd & Hlt & _). split; [|assumption].
      rewrite (pending_unfold mp) by assumption.
      rewrite (pending_unfold mp') by congruence.
      rewrite Hy, Hd. reflexivity.
Qed.

(** The loop ends within the passes left, with the first pending move or,
    when none is pending, with the sentinel in stage STOP. *)
Lemma next_move_loop_spec fuel :
  forall mp,
    (passes_left mp < fuel)%nat ->
    exists m mp',
      next_move_loop' fuel mp = Some (m, mp')
      /\ ((pending' mp = m :: pending' mp' /\ stage mp' <> STOP)
          \/ (pending' mp = [] /\ m = MOVE_NONE /\ stage mp' = STOP)).
Proof.
  induction fuel as [|fuel IH]; intros mp Hfuel; [lia|].
  simpl. pose proof (step_pending mp) as H.
  destruct (step' mp) as [m mp' | mp'].
  - exists m, mp'. split; [reflexivity|].
    destruct H as [(Hs & -> & ->) | (Hs & Hp & Hst)].
    + right. rewrite pending_STOP by assumption. auto.
    + left. split; [assumption | congruence].
  - destruct H as [Hp Hlt].
    destruct (IH mp' ltac:(lia)) as (m & mp'' & Hloop & Hres).
    exists m, mp''. split; [assumption|]. rewrite Hp. exact Hres.
Qed.

Lemma next_move_spec mp :
  (pending' mp = fst (next_move' mp) :: pending' (snd (next_move' mp))
   /\ stage (snd (next_move' mp)) <> STOP)
  \/ (pending' mp = [] /\ fst (next_move' mp) = MOVE_NONE
      /\ stage (snd (next_move' mp)) = STOP).
Proof.
  unfold next_move.
  destruct (next_move_loop_spec (S (passes_left mp)) mp ltac:(lia))
    as (m & mp' & -> & H).
  exact H.
Qed.

(** [next_move] is total: the loop returns within the passes it is given,
    and what it returns is the result of [next_move]. *)
Lemma next_move_returns mp :
  next_move_loop' (S (passes_left mp)) mp = Some (next_move' mp).
Proof.
  unfold next_move.
  destruct (next_move_loop_spec (S (passes_left mp)) mp ltac:(lia))
    as (m & mp' & -> & _).
  reflexivity.
Qed.

Lemma next_move_STOP mp : stage mp = STOP -> next_move' mp = (MOVE_NONE, mp).
Proof.
  intros H. unfold next_move. simpl.
  rewrite step_STOP by assumption. reflexivity.
Qed.


(** Inside a stage the loop returns the first move the batch yields. *)
Lemma loop_in_stage fuel :
  forall mp m ys,
    stage mp <> STOP ->
    yields' mp = m :: ys ->
    (length (moves mp) < fuel)%nat ->
    exists mp',
      next_move_loop' fuel mp = Some (m, mp')
      /\ stage mp' = stage mp /\ yields' mp' = ys.
Proof.
  induction fuel as [|fuel IH]; intros mp m ys Hs Hy Hfuel; [lia|].
  assert (Hm : moves mp <> []).
  { intros Hm. rewrite yields_empty in Hy by assumption. discriminate. }
  simpl. pose proof (step_in_batch mp Hs Hm) as H.
  destruct (step' mp) as [m' mp' | mp'].
  - destruct H as (Hy' & Hst & _). rewrite Hy in Hy'.
    inversion Hy'; subst. exists mp'. auto.
  - destruct H as (Hy' & Hst & _ & _ & Hlt).
    destruct (IH mp' m ys) as (mp'' & Hloop & Hst' & Hy'');
      [congruence | congruence | lia |].
    exists mp''. split; [assumption|]. split; congruence.
Qed.

End Step.

(** ** No move is handed out twice *)

Section NoDuplicates.

Variable to_sq : Move -> Square.
Variable score_of : GenType -> Position -> Move -> Value.

Local Abbreviation yields' := (yields to_sq).
Local Abbreviation passes' := (passes to_sq).
Local Abbreviation pending' := (pending to_sq score_of).
Local Abbreviation dispatch' := (dispatch score_of).
Local Abbreviation scored' := (scored score_of).

Lemma map_move_scored g p : map move (scored' g p) = generate p g.
Proof.
  unfold scored. rewrite map_map. simpl. apply map_id.
Qed.


Lemma NoDup_map_filter {A B} (f : A -> B) (P : A -> bool) l :
  List.NoDup (map f l) -> List.NoDup (map f (List.filter P l)).
Proof.
  induction l as [|x l IH]; simpl; intros H; [constructor|].
  apply NoDup_cons_iff in H as [Hx Hl].
  destruct (P x); simpl; [|auto].
  constructor; [|auto]. intros Hin. apply Hx.
  apply in_map_iff in Hin as (y & Hy & Hin).
  apply filter_In in Hin as [Hin _].
  apply in_map_iff. eauto.
Qed.


Lemma batch_order_Permutation mp : Permutation (batch_order mp) (moves mp).
Proof.
  unfold batch_order.
  destruct (stage mp); try reflexivity;
    apply selection_order_Permutation; reflexivity.
Qed.


Lemma yields_In_batch mp m :
  family_head (stage mp) = false ->
  List.In m (yields' mp) ->
  exists e, List.In e (moves mp) /\ move e = m /\ passes' mp m = true.
Proof.
  unfold yields, handed_out. intros ->.
  intros H. apply in_map_iff in H as (e & He & Hin).
  apply filter_In in Hin as [Hin Hp].
  exists e. split; [|split; congruence].
  eapply Permutation_in; [apply batch_order_Permutation | exact Hin].
Qed.


Lemma deferred_In mp e :
  List.In e (deferred mp) ->
  stage mp = GOOD_CAPTURES /\ List.In e (moves mp)
  /\ not_ttMove mp (move e) = true
  /\ (see (pos mp) (move e) >=? 0) = false.
Proof.
  unfold deferred.
  destruct (stage mp) eqn:Hs; try (intros []).
  intros H. apply filter_In in H as [Hin Hp].
  apply andb_true_iff in Hp as [H1 H2]. apply negb_true_iff in H2.
  split; [reflexivity|]. split; [|auto].
  eapply Permutation_in; [apply batch_order_Permutation | exact Hin].
Qed.

Lemma deferred_NoDup mp :
  List.NoDup (map move (moves mp)) -> List.NoDup (map move (deferred mp)).
Proof.
  unfold deferred. intros H.
  destruct (stage mp) eqn:Hs; try constructor.
  apply NoDup_map_filter.
  eapply Permutation_NoDup; [|exact H].
  apply Permutation_map. symmetry. apply batch_order_Permutation.
Qed.


Lemma Move_eqb_eq a b : Move_eqb a b = true <-> a = b.
Proof. apply Z.eqb_eq. Qed.




(** What the moves of a batch are, stage by stage of normal search. *)
Lemma In_scored g p e :
  List.In e (scored' g p) -> List.In (move e) (generate p g).
Proof.
  intros H. rewrite <- (map_move_scored g p). apply in_map. exact H.
Qed.










End NoDuplicates.

(** ** The contract of [next_move] *)

Section Contract.

Variable to_sq : Move -> Square.
Variable score_of : GenType -> Position -> Move -> Value.

Local Abbreviation next_move' := (next_move to_sq score_of).
Local Abbreviation after_calls' := (after_calls to_sq score_of).
Local Abbreviation pending' := (pending to_sq score_of).


(** Every picker comes to STOP: after one call more than it has moves
    pending. *)
Lemma exhaustion_reached mp :
  stage (after_calls' (S (length (pending' mp))) mp) = STOP.
Proof.
  remember (length (pending' mp)) as k eqn:Hk. revert mp Hk.
  induction k as [|k IH]; intros mp Hk; simpl.
  - destruct (next_move_spec to_sq score_of mp) as [(Hp & _) | (_ & _ & Hs)];
      [|exact Hs].
    rewrite Hp in Hk. discriminate.
  - destruct (next_move_spec to_sq score_of mp) as [(Hp & _) | (Hp & _ & _)].
    + apply (IH (snd (next_move' mp))). rewrite Hp in Hk. simpl in Hk. lia.
    + rewrite Hp in Hk. discriminate.
Qed.

End Contract.


(** C7: in stage STOP every call of [next_move] returns the sentinel and
    leaves the picker as it is, any number of times; the loop of the call
    returns it in its first pass, whatever is left in the batch. *)
Theorem STOP_returns_MOVE_NONE_forever :
  forall (to_sq : Move -> Square)
         (score_of : GenType -> Position -> Move -> Value)
         (mp : MovePicker) (n fuel : nat),
    stage mp = STOP ->
    next_move_loop to_sq score_of (S fuel) mp = Some (MOVE_NONE, mp)
    /\ next_move to_sq score_of mp = (MOVE_NONE, mp)
    /\ consume to_sq score_of n mp = repeat MOVE_NONE n
    /\ after_calls to_sq score_of n mp = mp.
Proof.
  intros to_sq score_of mp n fuel Hs.
  pose proof (next_move_STOP to_sq score_of mp Hs) as Hnext.
  split; [simpl; rewrite step_STOP by assumption; reflexivity|].
  split; [exact Hnext|].
  induction n as [|n [IH1 IH2]]; [split; reflexivity|].
  simpl. rewrite Hnext. simpl. rewrite IH1, IH2. split; reflexivity.
Qed.

(** C6, as it holds on the picker: out of check, the first call of
    [next_move] on a picker for normal search returns the hash move when it
    is pseudo-legal; when it is absent or not pseudo-legal the first pass
    moves from MAIN_SEARCH straight to GOOD_CAPTURES with the generated
    captures as its batch, and if a capture of the batch is not judged
    losing, the first move returned is such a capture, returned in
    GOOD_CAPTURES. *)
Theorem hash_move_first_then_captures :
  forall (to_sq : Move -> Square)
         (score_of : GenType -> Position -> Move -> Value)
         (p : Position) (ttm : Move) (d : Z) (s : Stack),
    checkers p = false ->
    let mp := MovePicker_main to_sq p ttm d s in
    let first := next_move to_sq score_of mp in
    (ttm <> MOVE_NONE -> pseudo_legal p ttm = true -> fst first = ttm)
    /\ (ttm = MOVE_NONE \/ pseudo_legal p ttm = false ->
        exists mp1,
          step to_sq score_of mp = Again mp1
          /\ stage mp1 = GOOD_CAPTURES
          /\ moves mp1 = scored score_of CAPTURES p
          /\ ((exists c, List.In c (generate p CAPTURES)
                         /\ c <> MOVE_NONE /\ 0 <= see p c) ->
              List.In (fst first) (generate p CAPTURES)
              /\ 0 <= see p (fst first)
              /\ stage (snd first) = GOOD_CAPTURES)).
Proof.
  intros to_sq score_of p ttm d s Hcheck mp first. split.
  - intros Hne Hpl. unfold first, next_move, mp, MovePicker_main.
    assert (Hb : Move_eqb ttm MOVE_NONE = false) by (apply Z.eqb_neq; exact Hne).
    rewrite Hcheck, Hb, Hpl. simpl negb. simpl andb. cbv iota.
    rewrite Hb. reflexivity.
  - intros Habsent.
    assert (Htt : ttMove mp = MOVE_NONE).
    { unfold mp, MovePicker_main. simpl.
      destruct Habsent as [-> | ->]; [reflexivity|].
      rewrite andb_false_r. reflexivity. }
    assert (Hmoves : moves mp = []).
    { unfold mp, MovePicker_main in *. simpl in *. rewrite Htt.
      reflexivity. }
    assert (Hstage : stage mp = MAIN_SEARCH).
    { unfold mp, MovePicker_main. simpl. rewrite Hcheck. reflexivity. }
    assert (Hstep : step to_sq score_of mp
                    = Again (enter score_of GOOD_CAPTURES mp)).
    { rewrite step_empty by (rewrite ?Hstage; congruence).
      rewrite dispatch_enter, Hstage. reflexivity. }
    exists (enter score_of GOOD_CAPTURES mp).
    split; [exact Hstep|]. split; [reflexivity|]. split; [reflexivity|].
    intros (c & Hc & Hcne & Hsee).
    set (mp1 := enter score_of GOOD_CAPTURES mp) in *.
    (* the batch of GOOD_CAPTURES yields a move *)
    assert (Hy : exists m ys, yields to_sq mp1 = m :: ys).
    { destruct (yields to_sq mp1) as [|m ys] eqn:Hy; [|eauto].
      exfalso.
      assert (Hin : List.In c (yields to_sq mp1)); [|rewrite Hy in Hin; exact Hin].
      unfold yields, handed_out. simpl family_head. cbv iota.
      apply in_map_iff.
      exists {| move := c; value := score_of CAPTURES p c |}.
      split; [reflexivity|]. apply filter_In. split.
      - eapply Permutation_in;
          [symmetry; apply batch_order_Permutation|].
        unfold mp1, enter. simpl. unfold scored.
        apply in_map_iff. eauto.
      - unfold passes, not_ttMove.
        cbn [stage mp1 enter set_stage set_moves ttMove pos move].
        rewrite Htt. change (pos mp) with p.
        apply andb_true_iff. split.
        + apply negb_true_iff, Z.eqb_neq. exact Hcne.
        + rewrite Z.geb_leb. apply Z.leb_le. exact Hsee. }
    destruct Hy as (m & ys & Hy).
    destruct (loop_in_stage to_sq score_of (passes_left mp) mp1 m ys)
      as (mp' & Hloop & Hst' & _); [discriminate | exact Hy | |].
    { unfold passes_left. rewrite Hmoves, Hstage. simpl.
      unfold scored. rewrite length_map. lia. }
    assert (Hfirst : first = (m, mp')).
    { unfold first, next_move. simpl next_move_loop. rewrite Hstep.
      rewrite Hloop. reflexivity. }
    rewrite Hfirst. simpl.
    assert (Hin : List.In m (yields to_sq mp1)) by (rewrite Hy; left; reflexivity).
    apply yields_In_batch in Hin; [|reflexivity].
    destruct Hin as (e & He & Hm & Hp).
    unfold passes in Hp. simpl in Hp.
    apply andb_true_iff in Hp as [_ Hp].
    rewrite Z.geb_leb in Hp. apply Z.leb_le in Hp.
    split; [|split; [exact Hp | exact Hst']].
    subst m. apply In_scored with (score_of := score_of). exact He.
Qed.




(** The other two conditions on the batches are needed as well: a move that
    a batch lists twice, and a move that the capture batch and the quiet
    batch both list, are returned twice. *)
Lemma shared_moves_are_returned_twice :
  consume Board.to_sq Sample.score_of 3
    (Sample.picker (Sample.node [101; 101] [201]) MOVE_NONE)
  = [101; 101; 201]
  /\ consume Board.to_sq Sample.score_of 3
       (Sample.picker (Sample.node [101] [201; 101]) MOVE_NONE)
     = [101; 101; 201].
Proof. split; vm_compute; reflexivity. Qed.

Lemma STOP_returns_MOVE_NONE_forever_witness :
  let mp := after_calls Board.to_sq Sample.score_of 8
              (Sample.picker Sample.position 201) in
  stage mp = STOP
  /\ Sample.next mp = (MOVE_NONE, mp)
  /\ consume Board.to_sq Sample.score_of 3 mp
     = [MOVE_NONE; MOVE_NONE; MOVE_NONE]
  /\ after_calls Board.to_sq Sample.score_of 3 mp = mp.
Proof.
  intros mp.
  assert (Hs : stage mp = STOP) by (vm_compute; reflexivity).
  split; [exact Hs|].
  exact (proj2 (STOP_returns_MOVE_NONE_forever Board.to_sq Sample.score_of
                  mp 3 0 Hs)).
Defined.

Lemma hash_move_first_then_captures_witness :
  fst (Sample.next (Sample.picker Sample.position 201)) = 201
  /\ List.In (fst (Sample.next (Sample.picker Sample.position MOVE_NONE)))
       Sample.captures.
Proof.
  split.
  - apply (proj1 (hash_move_first_then_captures Board.to_sq Sample.score_of
                    Sample.position 201 8 Sample.stack eq_refl));
      [discriminate | reflexivity].
  - destruct (proj2 (hash_move_first_then_captures Board.to_sq
                       Sample.score_of Sample.position MOVE_NONE 8
                       Sample.stack eq_refl) (or_introl eq_refl))
      as (mp1 & _ & _ & _ & H).
    apply H. exists 103. split; [vm_compute; auto|].
    split; [discriminate | vm_compute; discriminate].
Defined.

(** C6 as worded fails where no capture is worth taking: the hash move 999
    is not pseudo-legal, the one generated capture 102 loses material and is
    deferred, and the first move returned is the killer 202, handed out in
    KILLERS; the capture comes last, in BAD_CAPTURES. *)
Lemma first_move_from_a_later_stage :
  let mp := Sample.picker Sample.losing_position 999 in
  checkers Sample.losing_position = false
  /\ pseudo_legal Sample.losing_position 999 = false
  /\ stage mp = MAIN_SEARCH
  /\ generate Sample.losing_position CAPTURES = [102]
  /\ fst (Sample.next mp) = 202
  /\ stage (snd (Sample.next mp)) = KILLERS
  /\ ~ List.In (fst (Sample.next mp))
       (generate Sample.losing_position CAPTURES)
  /\ consume Board.to_sq Sample.score_of 6 mp
     = [202; 203; 201; 204; 102; MOVE_NONE].
Proof.
  vm_compute. repeat split. intros [H | []]. discriminate H.
Qed.

(** * Further properties of the tables *)

(** ** The rule on mathematical integers *)

Module RuleFacts.

Import IntFacts Rule.

(** Truncation toward zero makes the rule odd. *)
Lemma rule_opp d s v : d <> 0 -> rule d (- s) (- v) = - rule d s v.
Proof.
  intros Hd. unfold rule. rewrite Z.abs_opp.
  replace (- s * Z.abs v) with (- (s * Z.abs v)) by lia.
  rewrite Z.quot_opp_l by assumption. lia.
Qed.

(** The quotient of the decay grows by at most the growth of the stored
    value. *)
Lemma decay_quot_step d a s1 s2 :
  0 <= a < d -> s1 <= s2 -> (s2 * a) ÷ d - (s1 * a) ÷ d <= s2 - s1.
Proof.
  intros Ha Hs.
  destruct (Z_le_gt_dec 0 s1) as [H1 | H1].
  - destruct (quot_nonneg (s1 * a) d) as (_ & A1 & A2); [lia | nia |].
    destruct (quot_nonneg (s2 * a) d) as (_ & B1 & B2); [lia | nia |].
    nia.
  - destruct (Z_le_gt_dec s2 0) as [H2 | H2].
    + destruct (quot_nonpos (s1 * a) d) as (_ & A1 & A2); [lia | nia |].
      destruct (quot_nonpos (s2 * a) d) as (_ & B1 & B2); [lia | nia |].
      nia.
    + destruct (UpdateRule.decay_quot_between d s1 a Ha) as [_ A].
      destruct (UpdateRule.decay_quot_between d s2 a Ha) as [B _].
      specialize (A ltac:(lia)). specialize (B ltac:(lia)). lia.
Qed.

Lemma rule_mono d s1 s2 v :
  Z.abs v < d -> s1 <= s2 -> rule d s1 v <= rule d s2 v.
Proof.
  intros Hv Hs. unfold rule.
  pose proof (decay_quot_step d (Z.abs v) s1 s2 ltac:(lia) Hs). lia.
Qed.

(** The saturation level is kept. *)
Lemma rule_within d s v :
  324 <= d -> Z.abs v < 324 ->
  Z.abs s <= Saturation.level d -> Z.abs (rule d s v) <= Saturation.level d.
Proof.
  unfold Saturation.level, rule. intros Hd Hv Hs.
  set (a := Z.abs v) in *. set (q := (s * a) ÷ d).
  assert (Ha : 0 <= a < d) by (unfold a; lia).
  assert (Hva : - a <= v <= a) by (unfold a; lia).
  destruct (UpdateRule.decay_quot_between d s a Ha) as [Hq1 Hq2].
  fold q in Hq1, Hq2.
  destruct (Z_le_gt_dec 0 s) as [Hpos | Hneg].
  - destruct (quot_nonneg (s * a) d) as (H0 & H1 & H2); [lia | nia |].
    fold q in H0, H1, H2. specialize (Hq1 Hpos).
    assert (d * (s - q + 32 * a) < d * (32 * d + 1)) by nia.
    assert (s - q + 32 * a < 32 * d + 1) by nia.
    lia.
  - destruct (quot_nonpos (s * a) d) as (H0 & H1 & H2); [lia | nia |].
    fold q in H0, H1, H2. specialize (Hq2 ltac:(lia)).
    assert (d * (- (32 * d + 1)) < d * (s - q - 32 * a)) by nia.
    assert (- (32 * d + 1) < s - q - 32 * a) by nia.
    lia.
Qed.

(** At the level an observation of the same sign changes nothing. *)
Lemma rule_at_level d v :
  0 < d ->
  (0 <= v -> rule d (Saturation.level d) v = Saturation.level d)
  /\ (v <= 0 -> rule d (- Saturation.level d) v = - Saturation.level d).
Proof.
  intros Hd. unfold rule, Saturation.level. split; intros Hv.
  - rewrite Z.abs_eq by assumption.
    replace (32 * d * v) with (32 * v * d) by lia.
    rewrite Z.quot_mul by lia. lia.
  - rewrite Z.abs_neq by assumption.
    replace (- (32 * d) * - v) with (32 * v * d) by lia.
    rewrite Z.quot_mul by lia. lia.
Qed.

(** Below the level a non-negative observation does not lower the stored
    value, above its opposite a non-positive one does not raise it. *)
Lemma rule_direction d s v :
  324 <= d -> Z.abs v < 324 ->
  (0 <= v -> s <= Saturation.level d -> s <= rule d s v)
  /\ (v <= 0 -> - Saturation.level d <= s -> rule d s v <= s).
Proof.
  unfold Saturation.level, rule. intros Hd Hv.
  set (a := Z.abs v) in *. set (q := (s * a) ÷ d).
  assert (Ha : 0 <= a < d) by (unfold a; lia).
  destruct (UpdateRule.decay_quot_between d s a Ha) as [Hq1 Hq2].
  fold q in Hq1, Hq2.
  split; intros Hsign Hs.
  - assert (v = a) by (unfold a; lia).
    destruct (Z_le_gt_dec 0 s) as [Hpos | Hneg].
    + destruct (quot_nonneg (s * a) d) as (H0 & H1 & H2); [lia | nia |].
      fold q in H0, H1, H2.
      assert (d * q < d * (32 * a + 1)) by nia.
      assert (q < 32 * a + 1) by nia. lia.
    + specialize (Hq2 ltac:(lia)). lia.
  - assert (v = - a) by (unfold a; lia).
    destruct (Z_le_gt_dec 0 s) as [Hpos | Hneg].
    + specialize (Hq1 Hpos). lia.
    + destruct (quot_nonpos (s * a) d) as (H0 & H1 & H2); [lia | nia |].
      fold q in H0, H1, H2.
      assert (d * (- (32 * a + 1)) < d * q) by nia.
      assert (- (32 * a + 1) < q) by nia. lia.
Qed.

(** Within the level the arithmetic of [update] stays inside [int]. *)
Lemma within_no_overflow d s v :
  d = 324 \/ d = 936 -> Z.abs v < 324 ->
  Z.abs s <= Saturation.level d ->
  Saturation.no_overflow d v s.
Proof.
  intros Hd Hv Hs. unfold Saturation.no_overflow.
  assert (Hd' : 324 <= d) by lia.
  pose proof (rule_within d s v Hd' Hv Hs) as Hr. unfold rule in Hr.
  assert (Ha : 0 <= Z.abs v < d) by lia.
  destruct (UpdateRule.decay_quot_between d s (Z.abs v) Ha) as [Hq1 Hq2].
  unfold Saturation.level, Int.in_range, Int.min_int, Int.max_int in *.
  assert (Z.abs (s * Z.abs v) <= 32 * 936 * 324).
  { rewrite Z.abs_mul, (Z.abs_eq (Z.abs v)) by lia. nia. }
  repeat split; lia.
Qed.

End RuleFacts.

(** ** Writing one entry and leaving the others *)

Section AssignFacts.
Context {T : Type}.
Implicit Types (t : Stats.Stats T) (pc : nat) (to : nat).

Lemma alter_fixed {A} (f : A -> A) (l : list A) (i : nat) :
  (forall x, l !! i = Some x -> f x = x) -> alter f i l = l.
Proof.
  intros H. rewrite (list_alter_ext f id l l i); [|exact H | reflexivity].
  apply list_alter_id. reflexivity.
Qed.

Lemma assign_fixed t pc to f :
  (forall s, Stats.entry t pc to = Some s -> f s = s) ->
  Stats.assign t pc to f = t.
Proof.
  intros H. unfold Stats.assign. apply alter_fixed.
  intros row Hrow. apply alter_fixed. intros s Hs. apply H.
  unfold Stats.entry, Stats.index. rewrite Hrow. exact Hs.
Qed.

Lemma assign_comm t pc to pc' to' f g :
  pc <> pc' \/ to <> to' ->
  Stats.assign (Stats.assign t pc to f) pc' to' g
  = Stats.assign (Stats.assign t pc' to' g) pc to f.
Proof.
  intros Hne. unfold Stats.assign.
  destruct (decide (pc = pc')) as [<- | Hpc].
  - rewrite !list_alter_alter_eq. apply list_alter_ext; [|reflexivity].
    intros row _. simpl. apply list_alter_alter_ne.
    destruct Hne; congruence.
  - apply list_alter_alter_ne. congruence.
Qed.
End AssignFacts.

Section FromToFrame.
Implicit Types (t : FromToStats.FromToStats) (c f to : nat).

Lemma ft_entry_assign_ne t c f to c' f' to' g :
  c <> c' \/ f <> f' \/ to <> to' ->
  FromToStats.entry (FromToStats.assign t c f to g) c' f' to'
  = FromToStats.entry t c' f' to'.
Proof.
  unfold FromToStats.entry, FromToStats.assign. intros Hne.
  destruct (decide (c = c')) as [<- | Hc];
    [|rewrite list_lookup_alter_ne by assumption; reflexivity].
  rewrite list_lookup_alter_eq.
  destruct (t !! c) as [plane|]; simpl; [|reflexivity].
  destruct (decide (f = f')) as [<- | Hf];
    [|rewrite list_lookup_alter_ne by assumption; reflexivity].
  rewrite list_lookup_alter_eq.
  destruct (plane !! f) as [row|]; simpl; [|reflexivity].
  apply list_lookup_alter_ne. intuition congruence.
Qed.

Lemma ft_assign_fixed t c f to g :
  (forall s, FromToStats.entry t c f to = Some s -> g s = s) ->
  FromToStats.assign t c f to g = t.
Proof.
  intros H. unfold FromToStats.assign. apply alter_fixed.
  intros plane Hplane. apply alter_fixed. intros row Hrow.
  apply alter_fixed. intros s Hs. apply H.
  unfold FromToStats.entry. rewrite Hplane. simpl. rewrite Hrow. exact Hs.
Qed.
End FromToFrame.

(** ** The saturation level as an invariant *)

Section Level.

Lemma gain_decay_within d s v :
  d = 324 \/ d = 936 -> Z.abs v < 324 ->
  Z.abs s <= Saturation.level d ->
  Z.abs (Stats.gain v (Stats.decay d v s)) <= Saturation.level d.
Proof.
  intros Hd Hv Hs.
  destruct (RuleFacts.within_no_overflow d s v Hd Hv Hs)
    as (_ & Hp & _).
  rewrite UpdateRule.gain_decay_exact; try assumption.
  - apply RuleFacts.rule_within; [lia | assumption | assumption].
  - unfold Saturation.level, Int.in_range, Int.min_int, Int.max_int in *.
    lia.
Qed.

Lemma update_within CM (t : Stats.Stats Value) pc to v :
  Z.abs v < 324 ->
  Saturation.within CM t -> Saturation.within CM (Stats.update CM t pc to v).
Proof.
  intros Hv Ht. rewrite update_unfold, guard_open by assumption.
  apply all_entries_assign; [|exact Ht].
  intros s Hs. simpl.
  apply gain_decay_within; [apply divisor_cases | assumption | assumption].
Qed.

Lemma updates_within CM calls (t : Stats.Stats Value) :
  Forall (fun call => Z.abs call.2 < 324) calls ->
  Saturation.within CM t -> Saturation.within CM (Stats.updates CM t calls).
Proof.
  unfold Stats.updates. intros Hcalls. revert t.
  induction Hcalls as [|call calls Hcall _ IH]; intros t Ht; simpl.
  - exact Ht.
  - apply IH. apply update_within; assumption.
Qed.

Lemma clear_within CM PIECE_NB SQUARE_NB :
  Saturation.within CM (Stats.clear PIECE_NB SQUARE_NB 0).
Proof.
  apply all_entries_clear. unfold Saturation.level.
  destruct CM; simpl; lia.
Qed.

Variables from_sq to_sq : Move -> nat.

Lemma ft_update_within (t : FromToStats.FromToStats) c m v :
  Z.abs v < 324 ->
  Saturation.ft_within t ->
  Saturation.ft_within (FromToStats.update from_sq to_sq t c m v).
Proof.
  intros Hv Ht. rewrite ft_update_unfold, guard_open by assumption.
  apply ft_all_entries_assign; [|exact Ht].
  intros s Hs. simpl.
  apply gain_decay_within; [left; reflexivity | | ]; assumption.
Qed.

Lemma ft_updates_within calls (t : FromToStats.FromToStats) :
  Forall (fun call => Z.abs call.2 < 324) calls ->
  Saturation.ft_within t ->
  Saturation.ft_within (FromToStats.updates from_sq to_sq t calls).
Proof.
  unfold FromToStats.updates. intros Hcalls. revert t.
  induction Hcalls as [|call calls Hcall _ IH]; intros t Ht; simpl.
  - exact Ht.
  - apply IH. apply ft_update_within; assumption.
Qed.

Lemma ft_clear_within COLOR_NB SQUARE_NB :
  Saturation.ft_within (FromToStats.clear COLOR_NB SQUARE_NB).
Proof.
  unfold Saturation.ft_within, ft_all_entries, FromToStats.clear.
  apply Forall_replicate, Forall_replicate, Forall_replicate.
  unfold Saturation.level. lia.
Qed.

(** The entry after the same key was updated [n] times with [v]. *)
Lemma entry_updates_same_key CM n :
  forall (t : Stats.Stats Value) pc to v s,
    Z.abs v < 324 ->
    Stats.entry t pc to = Some s ->
    Stats.entry (Stats.updates CM t (replicate n (pc, to, v))) pc to
    = Some (Nat.iter n
              (fun x => Stats.gain v (Stats.decay (Stats.divisor CM) v x))
              s).
Proof.
  induction n as [|n IH]; intros t pc to v s Hv Hs; [exact Hs|].
  change (Stats.updates CM t (replicate (S n) (pc, to, v)))
    with (Stats.updates CM (Stats.update CM t pc to v)
            (replicate n (pc, to, v))).
  rewrite (IH _ pc to v _ Hv (entry_update_eq CM t pc to v s Hv Hs)).
  rewrite Nat.iter_succ_r. reflexivity.
Qed.

End Level.

(** ** What a user of the tables can rely on *)

(** X1: [Stats::update] with a value writes one entry only: every entry
    under another piece or another square reads as before. *)
Theorem update_changes_one_entry :
  forall (CM : bool) (t : Stats.Stats Value) (pc to pc' to' : nat)
         (v : Value),
    is_Some (Stats.entry t pc to) ->
    pc <> pc' \/ to <> to' ->
    Stats.entry (Stats.update CM t pc to v) pc' to' = Stats.entry t pc' to'.
Proof.
  intros CM t pc to pc' to' v _ Hne. rewrite update_unfold.
  destruct (Int.abs v >=? 324); [reflexivity|].
  apply entry_assign_ne. exact Hne.
Qed.

Lemma update_changes_one_entry_witness :
  Stats.entry (Stats.update false Board.history_after_scenario 1%nat 0%nat 7)
    1%nat 1%nat
  = Stats.entry Board.history_after_scenario 1%nat 1%nat.
Proof.
  apply (update_changes_one_entry false Board.history_after_scenario
           1%nat 0%nat 1%nat 1%nat 7).
  - exists 1107. reflexivity.
  - right. lia.
Defined.

(** X2: [Stats::update] with a move overwrites: the entry reads back the
    move written, a second write wins over the first, writing the old move
    back restores the table, and no other entry changes. *)
Theorem update_move_overwrites :
  forall (T : Type) (t : Stats.Stats T) (pc to : nat) (m1 m2 old : T),
    Stats.entry t pc to = Some old ->
    Stats.entry (Stats.update_move t pc to m1) pc to = Some m1
    /\ Stats.update_move (Stats.update_move t pc to m1) pc to m2
       = Stats.update_move t pc to m2
    /\ Stats.update_move (Stats.update_move t pc to m1) pc to old = t
    /\ (forall pc' to', pc <> pc' \/ to <> to' ->
          Stats.entry (Stats.update_move t pc to m1) pc' to'
          = Stats.entry t pc' to').
Proof.
  intros T t pc to m1 m2 old Hold.
  assert (Hagain : forall m,
             Stats.update_move (Stats.update_move t pc to m1) pc to m
             = Stats.update_move t pc to m).
  { intros m. unfold Stats.update_move. rewrite assign_assign.
    reflexivity. }
  split; [eapply entry_update_move; exact Hold|].
  split; [apply Hagain|]. split.
  - rewrite Hagain. unfold Stats.update_move. apply assign_fixed.
    intros s Hs. congruence.
  - intros pc' to' Hne. unfold Stats.update_move.
    apply entry_assign_ne. exact Hne.
Qed.

Lemma update_move_overwrites_witness :
  let t := Stats.clear Board.PIECE_NB Board.SQUARE_NB MOVE_NONE in
  Stats.entry (Stats.update_move t 6%nat 36%nat 3364) 6%nat 36%nat
  = Some 3364
  /\ Stats.update_move (Stats.update_move t 6%nat 36%nat 3364)
       6%nat 36%nat MOVE_NONE = t.
Proof.
  intros t.
  destruct (update_move_overwrites Move t 6%nat 36%nat 3364 796 MOVE_NONE)
    as (H1 & _ & H3 & _); [reflexivity|].
  split; [exact H1 | exact H3].
Defined.

Lemma entry_clear_cases {T : Type} PIECE_NB SQUARE_NB (zero : T) pc to :
  Stats.entry (Stats.clear PIECE_NB SQUARE_NB zero) pc to
  = if decide (pc < PIECE_NB /\ to < SQUARE_NB)%nat then Some zero else None.
Proof.
  unfold Stats.entry, Stats.index, Stats.clear.
  destruct (decide (pc < PIECE_NB)%nat) as [Hpc | Hpc].
  - rewrite lookup_replicate_2 by assumption. simpl.
    destruct (decide (to < SQUARE_NB)%nat) as [Hto | Hto].
    + rewrite lookup_replicate_2 by assumption.
      rewrite decide_True by auto. reflexivity.
    + rewrite (proj1 (lookup_replicate_None _ _ _)) by lia.
      rewrite decide_False by tauto. reflexivity.
  - rewrite (proj1 (lookup_replicate_None _ _ _)) by lia.
    rewrite decide_False by tauto. reflexivity.
Qed.

Lemma ft_entry_clear_cases COLOR_NB SQUARE_NB c f to :
  FromToStats.entry (FromToStats.clear COLOR_NB SQUARE_NB) c f to
  = if decide (c < COLOR_NB /\ f < SQUARE_NB /\ to < SQUARE_NB)%nat
    then Some 0 else None.
Proof.
  unfold FromToStats.entry, FromToStats.clear.
  destruct (decide (c < COLOR_NB)%nat) as [Hc | Hc].
  - rewrite lookup_replicate_2 by assumption. simpl.
    change (replicate SQUARE_NB (replicate SQUARE_NB 0) !! f
              ≫= (fun row : list Value => row !! to))
      with (Stats.entry (Stats.clear SQUARE_NB SQUARE_NB 0) f to).
    rewrite entry_clear_cases.
    destruct (decide (f < SQUARE_NB /\ to < SQUARE_NB)%nat);
      [rewrite decide_True by tauto | rewrite decide_False by tauto];
      reflexivity.
  - rewrite (proj1 (lookup_replicate_None _ _ _)) by lia.
    rewrite decide_False by tauto. reflexivity.
Qed.

(** X3: after [clear] a table has an entry for exactly the keys inside the
    array bounds and every one of them is zero, in a [Stats] table and in a
    [FromToStats] table. *)
Theorem clear_reads_zero :
  forall (PIECE_NB SQUARE_NB COLOR_NB : nat) (pc to c f : nat),
    (forall s, Stats.entry (Stats.clear PIECE_NB SQUARE_NB 0) pc to = Some s
               -> s = 0)
    /\ (is_Some (Stats.entry (Stats.clear PIECE_NB SQUARE_NB 0) pc to)
        <-> (pc < PIECE_NB /\ to < SQUARE_NB)%nat)
    /\ (forall s, FromToStats.entry (FromToStats.clear COLOR_NB SQUARE_NB)
                    c f to = Some s -> s = 0)
    /\ (is_Some (FromToStats.entry (FromToStats.clear COLOR_NB SQUARE_NB)
                   c f to)
        <-> (c < COLOR_NB /\ f < SQUARE_NB /\ to < SQUARE_NB)%nat).
Proof.
  intros PIECE_NB SQUARE_NB COLOR_NB pc to c f.
  rewrite entry_clear_cases, ft_entry_clear_cases.
  split; [|split; [|split]].
  - intros s. case_decide; congruence.
  - case_decide; split; intros H';
      first [ assumption | eexists; reflexivity | contradiction
            | destruct H' as [? H']; discriminate H' ].
  - intros s. case_decide; congruence.
  - case_decide; split; intros H';
      first [ assumption | eexists; reflexivity | contradiction
            | destruct H' as [? H']; discriminate H' ].
Qed.

(** X4: an observation of zero changes nothing: [update] with [v = 0]
    passes the guard and writes back the stored [int] as it was, in a
    [Stats] table and in a [FromToStats] table. *)
Theorem zero_observation_changes_nothing :
  forall (from_sq to_sq : Move -> nat) (CM : bool)
         (t : Stats.Stats Value) (pc to : nat)
         (ft : FromToStats.FromToStats) (c : nat) (m : Move),
    (forall s, Stats.entry t pc to = Some s -> Int.in_range s) ->
    (forall s, FromToStats.get from_sq to_sq ft c m = Some s ->
               Int.in_range s) ->
    Stats.update CM t pc to 0 = t
    /\ FromToStats.update from_sq to_sq ft c m 0 = ft.
Proof.
  intros from_sq to_sq CM t pc to ft c m Ht Hft.
  assert (Hfix : forall d s, Int.in_range s ->
                   Stats.gain 0 (Stats.decay d 0 s) = s).
  { intros d s Hs. unfold Stats.gain, Stats.decay.
    change (Int.abs 0) with 0. change (Int.mul 0 32) with 0.
    unfold Int.mul. rewrite Z.mul_0_r. change (Int.wrap 0) with 0.
    unfold Int.quot. change (0 ÷ d) with 0. change (Int.wrap 0) with 0.
    unfold Int.sub, Int.add. rewrite Z.sub_0_r, Z.add_0_r.
    rewrite !IntFacts.wrap_small; auto using IntFacts.wrap_in_range. }
  split.
  - rewrite update_unfold. change (Int.abs 0 >=? 324) with false.
    apply assign_fixed. intros s Hs. simpl. apply Hfix, Ht, Hs.
  - rewrite ft_update_unfold. change (Int.abs 0 >=? 324) with false.
    apply ft_assign_fixed. intros s Hs. simpl. apply Hfix, Hft, Hs.
Qed.

Lemma zero_observation_changes_nothing_witness :
  Stats.update true Board.history_after_scenario 1%nat 0%nat 0
  = Board.history_after_scenario
  /\ FromToStats.update Board.from_sq Board.to_sq
       (FromToStats.clear Board.COLOR_NB Board.SQUARE_NB) 0%nat
       (Board.make_move 12 28) 0
     = FromToStats.clear Board.COLOR_NB Board.SQUARE_NB.
Proof.
  apply (zero_observation_changes_nothing Board.from_sq Board.to_sq true).
  - intros s Hs. vm_compute in Hs. inversion Hs. subst.
    unfold Int.in_range, Int.min_int, Int.max_int. lia.
  - intros s Hs. vm_compute in Hs. inversion Hs. subst.
    unfold Int.in_range, Int.min_int, Int.max_int. lia.
Defined.

(** X5: the update is odd: on an entry that holds [-s] the observation
    [-v] stores the opposite of what the observation [v] stores on an entry
    that holds [s], as the division truncates toward zero. *)
Theorem update_is_odd :
  forall (CM : bool) (t t' : Stats.Stats Value) (pc to pc' to' : nat)
         (v s : Value),
    Z.abs v < 324 ->
    Z.abs s <= Int.max_int ->
    Z.abs (s * Z.abs v) <= Int.max_int ->
    Stats.entry t pc to = Some s ->
    Stats.entry t' pc' to' = Some (- s) ->
    Stats.entry (Stats.update CM t' pc' to' (- v)) pc' to'
    = Z.opp <$> Stats.entry (Stats.update CM t pc to v) pc to.
Proof.
  intros CM t t' pc to pc' to' v s Hv Hs Hp Ht Ht'.
  assert (Hvo : Z.abs (- v) < 324) by (rewrite Z.abs_opp; exact Hv).
  rewrite (entry_update_eq CM t' pc' to' (- v) (- s) Hvo Ht').
  rewrite (entry_update_eq CM t pc to v s Hv Ht). simpl. f_equal.
  pose proof (divisor_cases CM) as Hd.
  unfold Int.max_int in *.
  rewrite !UpdateRule.gain_decay_exact; try assumption;
    try (unfold Int.in_range, Int.min_int, Int.max_int; lia).
  apply RuleFacts.rule_opp. lia.
Qed.

Lemma update_is_odd_witness :
  Stats.entry
    (Stats.update false
       (Stats.assign Board.history_after_scenario 1%nat 0%nat Z.opp)
       1%nat 0%nat (- 100)) 1%nat 0%nat
  = Z.opp <$>
    Stats.entry (Stats.update false Board.history_after_scenario
                   1%nat 0%nat 100) 1%nat 0%nat.
Proof.
  apply (update_is_odd false Board.history_after_scenario
           (Stats.assign Board.history_after_scenario 1%nat 0%nat Z.opp)
           1%nat 0%nat 1%nat 0%nat 100 1107).
  - reflexivity.
  - unfold Int.max_int. lia.
  - unfold Int.max_int. lia.
  - reflexivity.
  - reflexivity.
Defined.

(** X6: the same observation keeps the order of two stored values: when
    two different entries of a table are updated with the same [v], the one
    that held the smaller value does not end up above the other. *)
Theorem update_keeps_order :
  forall (CM : bool) (t : Stats.Stats Value) (pc1 to1 pc2 to2 : nat)
         (v s1 s2 : Value),
    pc1 <> pc2 \/ to1 <> to2 ->
    Z.abs v < 324 ->
    Stats.entry t pc1 to1 = Some s1 ->
    Stats.entry t pc2 to2 = Some s2 ->
    Int.in_range s1 -> Int.in_range (s1 * Z.abs v) ->
    Int.in_range s2 -> Int.in_range (s2 * Z.abs v) ->
    s1 <= s2 ->
    let t' := Stats.update CM (Stats.update CM t pc1 to1 v) pc2 to2 v in
    exists n1 n2,
      Stats.entry t' pc1 to1 = Some n1
      /\ Stats.entry t' pc2 to2 = Some n2
      /\ n1 <= n2.
Proof.
  intros CM t pc1 to1 pc2 to2 v s1 s2 Hne Hv H1 H2 Hr1 Hp1 Hr2 Hp2 Hle t'.
  pose proof (divisor_cases CM) as Hd.
  exists (Rule.rule (Stats.divisor CM) s1 v),
         (Rule.rule (Stats.divisor CM) s2 v).
  split; [|split].
  - unfold t'. rewrite entry_update_ne by (destruct Hne; auto).
    rewrite (entry_update_eq CM t pc1 to1 v s1 Hv H1). f_equal.
    apply UpdateRule.gain_decay_exact; assumption.
  - unfold t'.
    rewrite (entry_update_eq CM _ pc2 to2 v s2 Hv);
      [|rewrite entry_update_ne by exact Hne; exact H2].
    f_equal. apply UpdateRule.gain_decay_exact; assumption.
  - apply RuleFacts.rule_mono; [lia | exact Hle].
Qed.

Lemma update_keeps_order_witness :
  let t := Stats.update false Board.history_after_scenario 2%nat 5%nat 40 in
  let t' := Stats.update false (Stats.update false t 1%nat 0%nat (- 200))
              2%nat 5%nat (- 200) in
  exists n1 n2,
    Stats.entry t' 1%nat 0%nat = Some n1
    /\ Stats.entry t' 2%nat 5%nat = Some n2
    /\ n1 <= n2.
Proof.
  intros t.
  apply (update_keeps_order false t 1%nat 0%nat 2%nat 5%nat (- 200)
           1107 1280).
  - left. lia.
  - reflexivity.
  - reflexivity.
  - reflexivity.
  - unfold Int.in_range, Int.min_int, Int.max_int. lia.
  - unfold Int.in_range, Int.min_int, Int.max_int. simpl. lia.
  - unfold Int.in_range, Int.min_int, Int.max_int. lia.
  - unfold Int.in_range, Int.min_int, Int.max_int. simpl. lia.
  - lia.
Defined.

(** X7: the sharp bound.  On a table that was cleared and then updated with
    observations of [|v| < 324], no entry exceeds 32 times the divisor in
    magnitude (10368 for the history and from-to tables, 29952 for the
    countermove flavour); and the bound is reached: thirty updates of one
    entry with 323 store exactly that value. *)
Theorem stored_values_within_saturation :
  forall (PIECE_NB SQUARE_NB COLOR_NB : nat)
         (from_sq to_sq : Move -> nat) (CM : bool)
         (calls : list (nat * nat * Value))
         (ft_calls : list (nat * Move * Value)) (pc0 to0 : nat),
    Forall (fun call => Z.abs call.2 < 324) calls ->
    Forall (fun call => Z.abs call.2 < 324) ft_calls ->
    (pc0 < PIECE_NB)%nat -> (to0 < SQUARE_NB)%nat ->
    (forall pc to s,
        Stats.entry
          (Stats.updates CM (Stats.clear PIECE_NB SQUARE_NB 0) calls)
          pc to = Some s ->
        Z.abs s <= 32 * (if CM then 936 else 324))
    /\ (forall c f to s,
        FromToStats.entry
          (FromToStats.updates from_sq to_sq
             (FromToStats.clear COLOR_NB SQUARE_NB) ft_calls)
          c f to = Some s ->
        Z.abs s <= 32 * 324)
    /\ Stats.entry
         (Stats.updates CM (Stats.clear PIECE_NB SQUARE_NB 0)
            (replicate 30 (pc0, to0, 323))) pc0 to0
       = Some (32 * (if CM then 936 else 324)).
Proof.
  intros PIECE_NB SQUARE_NB COLOR_NB from_sq to_sq CM calls ft_calls
         pc0 to0 Hcalls Hft Hpc Hto.
  split; [|split].
  - intros pc to s Hs.
    pose proof (updates_within CM calls _ Hcalls
                  (clear_within CM PIECE_NB SQUARE_NB)) as Hinv.
    exact (all_entries_entry _ _ _ _ _ Hinv Hs).
  - intros c f to s Hs.
    pose proof (ft_updates_within from_sq to_sq ft_calls _ Hft
                  (ft_clear_within COLOR_NB SQUARE_NB)) as Hinv.
    exact (ft_all_entries_entry _ _ _ _ _ _ Hinv Hs).
  - rewrite (entry_updates_same_key CM 30 _ pc0 to0 323 0);
      [| reflexivity | apply entry_clear; assumption].
    destruct CM; vm_compute; reflexivity.
Qed.

Lemma stored_values_within_saturation_witness :
  (forall pc to s,
      Stats.entry
        (Stats.updates false (Stats.clear Board.PIECE_NB Board.SQUARE_NB 0)
           [ (1%nat, 0%nat, 323); (1%nat, 0%nat, 323); (3%nat, 9%nat, -7) ])
        pc to = Some s ->
      Z.abs s <= 32 * 324)
  /\ Stats.entry
       (Stats.updates false (Stats.clear Board.PIECE_NB Board.SQUARE_NB 0)
          (replicate 30 (1%nat, 0%nat, 323))) 1%nat 0%nat
     = Some (32 * 324).
Proof.
  destruct (stored_values_within_saturation Board.PIECE_NB Board.SQUARE_NB
              Board.COLOR_NB Board.from_sq Board.to_sq false
              [ (1%nat, 0%nat, 323); (1%nat, 0%nat, 323);
                (3%nat, 9%nat, -7) ]
              [ (0%nat, Board.make_move 12 28, 5) ] 1%nat 0%nat)
    as (H1 & _ & H3).
  - repeat constructor.
  - repeat constructor.
  - vm_compute. lia.
  - vm_compute. lia.
  - split; [exact H1 | exact H3].
Defined.

(** X8: a saturated entry stays: where the stored value is 32 times the
    divisor, an update with a non-negative observation below 324 leaves the
    table unchanged, and so does a non-positive one on the opposite
    value. *)
Theorem saturated_entry_is_fixed :
  forall (CM : bool) (t : Stats.Stats Value) (pc to : nat) (v s : Value),
    Z.abs v < 324 ->
    Stats.entry t pc to = Some s ->
    (s = 32 * Stats.divisor CM /\ 0 <= v)
    \/ (s = - (32 * Stats.divisor CM) /\ v <= 0) ->
    Stats.update CM t pc to v = t.
Proof.
  intros CM t pc to v s Hv Hs Hcase.
  pose proof (divisor_cases CM) as Hd.
  rewrite update_unfold, guard_open by assumption.
  apply assign_fixed. intros s' Hs'. simpl.
  assert (s' = s) by congruence. subst s'.
  assert (Hw : Z.abs s <= Saturation.level (Stats.divisor CM)).
  { unfold Saturation.level. lia. }
  destruct (RuleFacts.within_no_overflow _ s v Hd Hv Hw) as (_ & Hp & _).
  rewrite UpdateRule.gain_decay_exact; try assumption;
    [|unfold Saturation.level, Int.in_range, Int.min_int, Int.max_int in *;
      lia].
  destruct (RuleFacts.rule_at_level (Stats.divisor CM) v ltac:(lia))
    as [Hup Hdown].
  unfold Saturation.level in *.
  destruct Hcase as [[-> Hsign] | [-> Hsign]]; auto.
Qed.

Lemma saturated_entry_is_fixed_witness :
  let t := Stats.updates false
             (Stats.clear Board.PIECE_NB Board.SQUARE_NB 0)
             (replicate 2 (1%nat, 0%nat, 323)) in
  Stats.update false t 1%nat 0%nat 150 = t.
Proof.
  intros t.
  apply (saturated_entry_is_fixed false t 1%nat 0%nat 150 10368).
  - reflexivity.
  - reflexivity.
  - left. simpl. lia.
Defined.

(** X9: an update moves the stored value toward the observation: within the
    saturation level a non-negative observation does not lower the entry and
    a non-positive one does not raise it, and the entry stays within the
    level. *)
Theorem update_moves_toward_observation :
  forall (CM : bool) (t : Stats.Stats Value) (pc to : nat) (v s : Value),
    Z.abs v < 324 ->
    Stats.entry t pc to = Some s ->
    Z.abs s <= 32 * Stats.divisor CM ->
    exists n,
      Stats.entry (Stats.update CM t pc to v) pc to = Some n
      /\ (0 <= v -> s <= n)
      /\ (v <= 0 -> n <= s)
      /\ Z.abs n <= 32 * Stats.divisor CM.
Proof.
  intros CM t pc to v s Hv Hs Hw.
  pose proof (divisor_cases CM) as Hd.
  exists (Rule.rule (Stats.divisor CM) s v).
  destruct (RuleFacts.within_no_overflow _ s v Hd Hv Hw) as (_ & Hp & _).
  destruct (RuleFacts.rule_direction (Stats.divisor CM) s v
              ltac:(lia) Hv) as [Hup Hdown].
  pose proof (RuleFacts.rule_within (Stats.divisor CM) s v
                ltac:(lia) Hv Hw) as Hin.
  unfold Saturation.level in *.
  split; [|split; [|split]].
  - rewrite (entry_update_eq CM t pc to v s Hv Hs). f_equal.
    apply UpdateRule.gain_decay_exact; try assumption.
    unfold Int.in_range, Int.min_int, Int.max_int. lia.
  - intros Hsign. apply Hup; lia.
  - intros Hsign. apply Hdown; lia.
  - exact Hin.
Qed.

Lemma update_moves_toward_observation_witness :
  exists n,
    Stats.entry (Stats.update true Board.history_after_scenario
                   1%nat 0%nat (- 3)) 1%nat 0%nat = Some n
    /\ (0 <= - 3 -> 1107 <= n)
    /\ (- 3 <= 0 -> n <= 1107)
    /\ Z.abs n <= 32 * Stats.divisor true.
Proof.
  apply (update_moves_toward_observation true Board.history_after_scenario
           1%nat 0%nat (- 3) 1107).
  - reflexivity.
  - reflexivity.
  - simpl. lia.
Defined.

(** X10: the arithmetic of [update] never leaves the [int]: on a table that
    was cleared and then updated with observations of [|v| < 324], for every
    entry and every further such observation the absolute value, the
    product, the quotient, the difference, the gain and the sum all fit in
    32 bits. *)
Theorem update_never_overflows :
  forall (PIECE_NB SQUARE_NB COLOR_NB : nat)
         (from_sq to_sq : Move -> nat) (CM : bool)
         (calls : list (nat * nat * Value))
         (ft_calls : list (nat * Move * Value)) (v : Value),
    Forall (fun call => Z.abs call.2 < 324) calls ->
    Forall (fun call => Z.abs call.2 < 324) ft_calls ->
    Z.abs v < 324 ->
    (forall pc to s,
        Stats.entry
          (Stats.updates CM (Stats.clear PIECE_NB SQUARE_NB 0) calls)
          pc to = Some s ->
        Saturation.no_overflow (Stats.divisor CM) v s)
    /\ (forall c f to s,
        FromToStats.entry
          (FromToStats.updates from_sq to_sq
             (FromToStats.clear COLOR_NB SQUARE_NB) ft_calls)
          c f to = Some s ->
        Saturation.no_overflow 324 v s).
Proof.
  intros PIECE_NB SQUARE_NB COLOR_NB from_sq to_sq CM calls ft_calls v
         Hcalls Hft Hv.
  split.
  - intros pc to s Hs.
    pose proof (updates_within CM calls _ Hcalls
                  (clear_within CM PIECE_NB SQUARE_NB)) as Hinv.
    apply RuleFacts.within_no_overflow;
      [apply divisor_cases | exact Hv |].
    exact (all_entries_entry _ _ _ _ _ Hinv Hs).
  - intros c f to s Hs.
    pose proof (ft_updates_within from_sq to_sq ft_calls _ Hft
                  (ft_clear_within COLOR_NB SQUARE_NB)) as Hinv.
    apply RuleFacts.within_no_overflow; [left; reflexivity | exact Hv |].
    exact (ft_all_entries_entry _ _ _ _ _ _ Hinv Hs).
Qed.

Lemma update_never_overflows_witness :
  Saturation.no_overflow 324 (- 323) 1107.
Proof.
  apply (proj1 (update_never_overflows Board.PIECE_NB Board.SQUARE_NB
                  Board.COLOR_NB Board.from_sq Board.to_sq false
                  [ (1%nat, 0%nat, 100); (1%nat, 0%nat, -50) ]
                  [ (0%nat, Board.make_move 12 28, 5) ] (- 323)
                  ltac:(repeat constructor) ltac:(repeat constructor)
                  ltac:(reflexivity)) 1%nat 0%nat 1107).
  reflexivity.
Defined.

(** X11: updates of different entries commute: the table after two updates
    under different keys does not depend on their order. *)
Theorem updates_of_different_entries_commute :
  forall (CM : bool) (t : Stats.Stats Value) (pc1 to1 pc2 to2 : nat)
         (v1 v2 : Value),
    is_Some (Stats.entry t pc1 to1) ->
    is_Some (Stats.entry t pc2 to2) ->
    pc1 <> pc2 \/ to1 <> to2 ->
    Stats.update CM (Stats.update CM t pc1 to1 v1) pc2 to2 v2
    = Stats.update CM (Stats.update CM t pc2 to2 v2) pc1 to1 v1.
Proof.
  intros CM t pc1 to1 pc2 to2 v1 v2 _ _ Hne.
  rewrite !update_unfold.
  destruct (Int.abs v1 >=? 324); destruct (Int.abs v2 >=? 324);
    try reflexivity.
  apply assign_comm. exact Hne.
Qed.

Lemma updates_of_different_entries_commute_witness :
  Stats.update false
    (Stats.update false Board.history_after_scenario 1%nat 0%nat 7)
    1%nat 1%nat (- 9)
  = Stats.update false
      (Stats.update false Board.history_after_scenario 1%nat 1%nat (- 9))
      1%nat 0%nat 7.
Proof.
  apply (updates_of_different_entries_commute false
           Board.history_after_scenario 1%nat 0%nat 1%nat 1%nat 7 (- 9)).
  - exists 1107. reflexivity.
  - exists 0. reflexivity.
  - right. lia.
Defined.

(** X12: [FromToStats] keeps origins apart: an update for a move leaves the
    entry of every move of another colour, another origin or another
    destination as it was, so two moves to the same square from different
    squares have entries of their own. *)
Theorem from_to_keeps_origins_apart :
  forall (from_sq to_sq : Move -> nat) (t : FromToStats.FromToStats)
         (c c' : nat) (m m' : Move) (v : Value),
    is_Some (FromToStats.get from_sq to_sq t c m) ->
    c <> c' \/ from_sq m <> from_sq m' \/ to_sq m <> to_sq m' ->
    FromToStats.get from_sq to_sq
      (FromToStats.update from_sq to_sq t c m v) c' m'
    = FromToStats.get from_sq to_sq t c' m'.
Proof.
  intros from_sq to_sq t c c' m m' v _ Hne.
  unfold FromToStats.get. rewrite ft_update_unfold.
  destruct (Int.abs v >=? 324); [reflexivity|].
  apply ft_entry_assign_ne. exact Hne.
Qed.

Lemma from_to_keeps_origins_apart_witness :
  (* e2-e4 is updated, d3-e4 is read *)
  let t := FromToStats.clear Board.COLOR_NB Board.SQUARE_NB in
  Board.to_sq (Board.make_move 12 28) = Board.to_sq (Board.make_move 19 28)
  /\ FromToStats.get Board.from_sq Board.to_sq
       (FromToStats.update Board.from_sq Board.to_sq t 0%nat
          (Board.make_move 12 28) 100) 0%nat (Board.make_move 19 28)
     = FromToStats.get Board.from_sq Board.to_sq t 0%nat
         (Board.make_move 19 28).
Proof.
  intros t. split; [reflexivity|].
  apply (from_to_keeps_origins_apart Board.from_sq Board.to_sq t 0%nat 0%nat
           (Board.make_move 12 28) (Board.make_move 19 28) 100).
  - exists 0. reflexivity.
  - right. left. vm_compute. lia.
Defined.

Lemma stage_of_value_some n :
  (n < 17)%nat -> exists s, stage_of_value n = Some s /\ stage_value s = n.
Proof.
  intros Hn.
  do 17 (destruct n as [|n]; [eexists; split; reflexivity|]).
  lia.
Qed.

(** X13: the stages number the table: different stages have different
    values, every value is below [STAGE_NB = 17] and every number below it
    is the value of a stage; the table [generators] holds no routine twice
    and has no entry from index [STAGE_NB] on. *)
Theorem stage_values_index_the_table :
  (forall s s' : Stages, stage_value s = stage_value s' -> s = s')
  /\ (forall s : Stages, (stage_value s < STAGE_NB)%nat)
  /\ STAGE_NB = 17%nat
  /\ (forall n : nat, (n < STAGE_NB)%nat ->
        exists s, stage_value s = n)
  /\ (forall (n : nat) (s : Stages),
        generators !! n = Some (generate_next_stage_at s) ->
        n = stage_value s)
  /\ (forall n : nat, (STAGE_NB <= n)%nat -> generators !! n = None).
Proof.
  split; [|split; [|split; [|split; [|split]]]].
  - intros s s' H.
    assert (Hs : Some s = Some s')
      by (rewrite <- !stage_of_value_of_stage, H; reflexivity).
    inversion Hs. reflexivity.
  - apply stage_value_below_STAGE_NB.
  - reflexivity.
  - intros n Hn. destruct (stage_of_value_some n Hn) as (s & _ & Hs).
    exists s. exact Hs.
  - intros n s H.
    do 17 (destruct n as [|n];
           [simpl in H; inversion H; reflexivity|]).
    discriminate H.
  - intros n Hn. apply lookup_ge_None_2. exact Hn.
Qed.

(** X14: the countermove flavour keeps more of what is stored: for the same
    stored value and the same observation the table with divisor 936 ends
    at least as far from zero on the side of the stored value as the table
    with divisor 324. *)
Theorem countermove_flavour_decays_less :
  forall (history countermoves : Stats.Stats Value) (pc to pc' to' : nat)
         (v s : Value),
    Z.abs v < 324 ->
    Int.in_range s -> Int.in_range (s * Z.abs v) ->
    Stats.entry history pc to = Some s ->
    Stats.entry countermoves pc' to' = Some s ->
    exists n_h n_c,
      Stats.entry (Stats.update false history pc to v) pc to = Some n_h
      /\ Stats.entry (Stats.update true countermoves pc' to' v) pc' to'
         = Some n_c
      /\ (0 <= s -> n_h <= n_c)
      /\ (s <= 0 -> n_c <= n_h).
Proof.
  intros history countermoves pc to pc' to' v s Hv Hr Hp Hh Hc.
  exists (Rule.rule 324 s v), (Rule.rule 936 s v).
  split; [|split; [|split]].
  - rewrite (entry_update_eq false history pc to v s Hv Hh). f_equal.
    apply UpdateRule.gain_decay_exact; auto.
  - rewrite (entry_update_eq true countermoves pc' to' v s Hv Hc). f_equal.
    apply UpdateRule.gain_decay_exact; auto.
  - intros Hs. unfold Rule.rule.
    assert ((s * Z.abs v) ÷ 936 <= (s * Z.abs v) ÷ 324)
      by (apply Z.quot_le_compat_l; nia).
    lia.
  - intros Hs. unfold Rule.rule.
    replace (s * Z.abs v) with (- (- s * Z.abs v)) by lia.
    rewrite !Z.quot_opp_l by lia.
    assert ((- s * Z.abs v) ÷ 936 <= (- s * Z.abs v) ÷ 324)
      by (apply Z.quot_le_compat_l; nia).
    lia.
Qed.

Lemma countermove_flavour_decays_less_witness :
  exists n_h n_c,
    Stats.entry (Stats.update false Board.history_after_scenario
                   1%nat 0%nat 50) 1%nat 0%nat = Some n_h
    /\ Stats.entry (Stats.update true Board.history_after_scenario
                      1%nat 0%nat 50) 1%nat 0%nat = Some n_c
    /\ (0 <= 1107 -> n_h <= n_c)
    /\ (1107 <= 0 -> n_c <= n_h).
Proof.
  apply (countermove_flavour_decays_less Board.history_after_scenario
           Board.history_after_scenario 1%nat 0%nat 1%nat 0%nat 50 1107).
  - reflexivity.
  - unfold Int.in_range, Int.min_int, Int.max_int. lia.
  - unfold Int.in_range, Int.min_int, Int.max_int. simpl. lia.
  - reflexivity.
  - reflexivity.
Defined.

Section Locality.

Lemma entry_update_on_value CM (t : Stats.Stats Value) pc to v :
  Stats.entry (Stats.update CM t pc to v) pc to
  = (fun s => Calls.on_value CM s v) <$> Stats.entry t pc to.
Proof.
  rewrite update_unfold. unfold Calls.on_value.
  destruct (Int.abs v >=? 324).
  - destruct (Stats.entry t pc to); reflexivity.
  - apply entry_assign_eq.
Qed.

Lemma for_entry_spec pc to call :
  Calls.for_entry pc to call = true <-> call.1.1 = pc /\ call.1.2 = to.
Proof.
  unfold Calls.for_entry. rewrite andb_true_iff, !Nat.eqb_eq. reflexivity.
Qed.

Lemma entry_updates_fold CM calls :
  forall (t : Stats.Stats Value) pc to,
    Stats.entry (Stats.updates CM t calls) pc to
    = (fun s => foldl (Calls.on_value CM) s
                  (Calls.observations pc to calls))
      <$> Stats.entry t pc to.
Proof.
  induction calls as [|call calls IH]; intros t pc to.
  - simpl. destruct (Stats.entry t pc to); reflexivity.
  - change (Stats.updates CM t (call :: calls))
      with (Stats.updates CM
              (Stats.update CM t call.1.1 call.1.2 call.2) calls).
    rewrite IH. unfold Calls.observations. simpl List.filter.
    destruct (Calls.for_entry pc to call) eqn:Hfor.
    + apply for_entry_spec in Hfor as [<- <-].
      rewrite entry_update_on_value.
      destruct (Stats.entry t call.1.1 call.1.2); reflexivity.
    + rewrite entry_update_ne; [reflexivity|].
      destruct (decide (call.1.1 = pc)) as [H1 | H1]; [|left; exact H1].
      destruct (decide (call.1.2 = to)) as [H2 | H2]; [|right; exact H2].
      exfalso. assert (Calls.for_entry pc to call = true)
        by (apply for_entry_spec; auto).
      congruence.
Qed.

End Locality.

(** X15: an entry only sees its own calls: after any sequence of updates the
    value of an entry is what the observations made for this entry alone,
    taken in order, make of its old value; calls for other moves play no
    part. *)
Theorem entry_depends_on_its_own_calls :
  forall (CM : bool) (t : Stats.Stats Value)
         (calls : list (nat * nat * Value)) (pc to : nat) (s : Value),
    Forall (fun call => is_Some (Stats.entry t call.1.1 call.1.2)) calls ->
    Stats.entry t pc to = Some s ->
    Stats.entry (Stats.updates CM t calls) pc to
    = Some (foldl (Calls.on_value CM) s (Calls.observations pc to calls))
    /\ Stats.entry (Stats.updates CM t calls) pc to
       = Stats.entry
           (Stats.updates CM t (List.filter (Calls.for_entry pc to) calls))
           pc to.
Proof.
  intros CM t calls pc to s _ Hs.
  rewrite !entry_updates_fold, Hs. simpl. split; [reflexivity|].
  f_equal. f_equal. unfold Calls.observations. f_equal.
  induction calls as [|call calls IH]; [reflexivity|].
  simpl. destruct (Calls.for_entry pc to call) eqn:Hfor; simpl;
    [rewrite Hfor; f_equal|]; exact IH.
Qed.

Lemma entry_depends_on_its_own_calls_witness :
  Stats.entry
    (Stats.updates false (Stats.clear Board.PIECE_NB Board.SQUARE_NB 0)
       [ (1%nat, 0%nat, 100); (2%nat, 9%nat, 300); (1%nat, 0%nat, -50);
         (1%nat, 1%nat, 17) ]) 1%nat 0%nat
  = Some (foldl (Calls.on_value false) 0 [100; -50]).
Proof.
  apply (proj1 (entry_depends_on_its_own_calls false
                  (Stats.clear Board.PIECE_NB Board.SQUARE_NB 0)
                  [ (1%nat, 0%nat, 100); (2%nat, 9%nat, 300);
                    (1%nat, 0%nat, -50); (1%nat, 1%nat, 17) ]
                  1%nat 0%nat 0
                  ltac:(repeat constructor; eexists; reflexivity)
                  ltac:(reflexivity))).
Defined.
